(** * AgentServer (packages/cli/src/server/index.ts)

    A shallow embedding of the [AgentServer] class: the agent registry (a
    JavaScript [Map]), the express application as the ordered stack of layers
    mounted on it, the listener held in [this.server], and the part of the Node
    process the class talks to (signal handlers, timers, [process.exit]).

    Methods are computations in a state-and-exception monad over that world;
    what the outside does (a signal, the listener's ['close'] event, time
    passing) is an [action] of the event loop.

    What belongs to express, node or the agents is a parameter ([Env], and a
    handle's [stop] behaviour).  Calls into them are events of the trace.
    [runtime.registerProvider] and [runtime.registerAction] are taken to
    return; a listener that a later [start] replaced in [this.server] is no
    longer reachable from the class and is not kept; the constructor's own
    logging and the creation of the database adapter are not modelled. *)

From Stdlib Require Import List String Ascii Bool Arith ZArith QArith Lia.
Import ListNotations.
Local Close Scope Q_scope.
Local Open Scope string_scope.
Local Open Scope list_scope.

(** ** JavaScript values

    Only what the guards of the source look at: truthiness ([!x]) and
    [typeof]. *)

Module Js.

(** An IEEE double, as far as [!x] can tell its values apart. *)
Inductive number :=
| NaN
| Infinity (negative : bool)
| Finite (q : Q).

Inductive value :=
| Undefined
| Null
| Boolean (b : bool)
| Number (n : number)
| Str (s : string).

Definition of_Z (z : Z) : value := Number (Finite (inject_Z z)).
Definition of_nat (n : nat) : value := of_Z (Z.of_nat n).

(** [Boolean(x)]: the falsy values are [undefined], [null], [false], [0],
    [NaN] and the empty string. *)
Definition truthy (v : value) : bool :=
  match v with
  | Undefined | Null => false
  | Boolean b => b
  | Number NaN => false
  | Number (Infinity _) => true
  | Number (Finite q) => negb (Qnum q =? 0)%Z
  | Str s => negb (s =? "")
  end.

Definition typeof (v : value) : string :=
  match v with
  | Undefined => "undefined"
  | Null => "object"
  | Boolean _ => "boolean"
  | Number _ => "number"
  | Str _ => "string"
  end.

(** A number that is an integer greater than zero. *)
Definition positive_integer (v : value) : bool :=
  match v with
  | Number (Finite q) =>
      (0 <? Qnum q)%Z && (Zpos (Qden (Qred q)) =? 1)%Z
  | _ => false
  end.

(** [String.prototype] methods used by the asset resolver. *)
Definition startsWith (s p : string) : bool := String.prefix p s.

Definition endsWith (s suffix : string) : bool :=
  Nat.leb (String.length suffix) (String.length s) &&
  (substring (String.length s - String.length suffix)
     (String.length suffix) s =? suffix).

Fixpoint includes (s sub : string) : bool :=
  String.prefix sub s ||
  match s with
  | EmptyString => false
  | String _ s' => includes s' sub
  end.

(** [s.slice(0, -n)] and [s.slice(n)]. *)
Definition slice_to_minus (n : nat) (s : string) : string :=
  substring 0 (String.length s - n) s.
Definition slice_from (n : nat) (s : string) : string :=
  substring n (String.length s - n) s.

End Js.

(** ** [Map]: keys in insertion order, at most one entry per key *)

Module JsMap.
Section WithValue.
Context {V : Type}.

Definition t := list (string * V).

(** [new Map()] *)
Definition empty : t := [].

(** [m.set(k, v)]: an existing key keeps its place and takes the new
    value; a new key goes last. *)
Fixpoint set (k : string) (v : V) (m : t) : t :=
  match m with
  | [] => [(k, v)]
  | (k', v') :: m' =>
      if k' =? k then (k, v) :: m' else (k', v') :: set k v m'
  end.

(** [m.delete(k)] *)
Fixpoint delete (k : string) (m : t) : t :=
  match m with
  | [] => []
  | (k', v') :: m' => if k' =? k then m' else (k', v') :: delete k m'
  end.

(** [m.get(k)] *)
Fixpoint get (k : string) (m : t) : option V :=
  match m with
  | [] => None
  | (k', v') :: m' => if k' =? k then Some v' else get k m'
  end.

(** [[...m.keys()]], [m.size] and [[...m.entries()]] *)
Definition keys (m : t) : list string := map fst m.
Definition size (m : t) : nat := List.length m.
Definition entries (m : t) : list (string * V) := m.

(** The representation invariant of a [Map]. *)
Definition wf (m : t) : Prop := NoDup (keys m).

End WithValue.
Arguments t : clear implicits.
End JsMap.

(** ** The collaborators' data, as the server sees it *)

Definition UUID := string.

(** A route's handler is supplied from outside; the server only passes it on. *)
Definition Handler := nat.

Module Route.
Record t := { type : string; path : string; handler : Handler }.
End Route.

Module Plugin.
(** [routes], [providers] and [actions] are optional properties. *)
Record t := {
  name : string;
  routes : option (list Route.t);
  providers : option (list string);
  actions : option (list string)
}.
End Plugin.

Module Character.
Record t := { name : string }.
End Character.

(** What a call of [agent.stop()] does, seen from its caller, who does not
    await it: it returns (its work done, or left pending for ever), or it
    throws. *)
Inductive StopBehaviour :=
| StopReturns
| StopNeverCompletes
| StopThrows.

Module Runtime.
(** [IAgentRuntime]. [character] is looked at with [!runtime.character], so
    it may be missing. *)
Record t := {
  agentId : UUID;
  character : option Character.t;
  plugins : list Plugin.t;
  routes : list Route.t;
  stop : StopBehaviour
}.
End Runtime.

(** ** Messages, errors, the log *)

(** A template literal: text, and interpolated values that are not strings. *)
Inductive fragment :=
| Txt (s : string)
| Interp (v : Js.value).

Definition message := list fragment.

Inductive error :=
| Error (msg : message)        (* new Error(msg), thrown by this file *)
| TypeError (msg : string)     (* thrown by the language: undefined is not iterable, ... *)
| Thrown (origin : string).    (* thrown inside express, node or an agent *)

Inductive level := LOG | INFO | DEBUG | SUCCESS | WARN | ERROR.

(** ** The express application *)

(** [app.get], [app.post], [app.put], [app.delete] *)
Inductive verb := GET | POST | PUT | DELETE.

Inductive middleware :=
| Custom (id : nat)
| Cors
| BodyParserJson
| BodyParserUrlencoded
| ExpressJson (limit : string)
| ContentTypeByExtension.

(** [(req, res) => route.handler(req, res, runtime)] *)
Record Wrapper := { wrapped : Handler; owner : Runtime.t }.

Inductive layer :=
| Use (m : middleware)
| UseStatic (mount dir : string) (staticOptions : bool)
| Bind (v : verb) (path : string) (w : Wrapper).

(** ** Callbacks handed to node *)

Inductive callback :=
| ListeningCallback (port : Js.value)   (* lines 473-481 *)
| ShutdownCloseCallback                 (* lines 499-502 *)
| ShutdownTimeoutCallback               (* lines 505-508 *)
| StopCloseCallback.                    (* lines 527-529 *)

Inductive signal := SIGTERM | SIGINT.

Definition signal_eqb (a b : signal) : bool :=
  match a, b with
  | SIGTERM, SIGTERM | SIGINT, SIGINT => true
  | _, _ => false
  end.

(** The [http.Server] returned by [app.listen]: the listeners of its
    ['listening'] and ['close'] events (oldest first), and whether [close()]
    was called and ['close'] has not been emitted yet. *)
Record Listener := {
  port : Js.value;
  on_listening : list callback;
  closing : bool;
  on_close : list callback
}.

(** What the server does to the outside, in the order it does it. *)
Inductive event :=
| Logged (l : level) (msg : message) (err : option error)
| Mkdir (dir : string)
| RegisterProvider (agent : UUID) (provider : string)
| RegisterAction (agent : UUID) (action : string)
| AgentStop (agent : UUID)
| Listen (port : Js.value)
| ServerClose
| SetTimeout (ms : nat)
| ProcessOn (s : signal)
| ProcessExit (code : Z)
| UncaughtException (e : error)
| UnhandledRejection (e : error)
| KilledBy (s : signal).

(** ** The world *)

Record world := {
  app : list layer;                    (* this.app: the layers, oldest first *)
  agents : JsMap.t Runtime.t;          (* this.agents *)
  server : option Listener;            (* this.server *)
  handlers : list signal;              (* process.on(s, gracefulShutdown), oldest first *)
  timers : list (nat * callback);      (* armed timers: when due, what to run *)
  clock : nat;                         (* milliseconds *)
  exited : option Z;                   (* the status the process ended with *)
  trace : list event                   (* oldest first *)
}.

Definition with_app (f : list layer -> list layer) (w : world) : world :=
  {| app := f (app w); agents := agents w; server := server w;
     handlers := handlers w; timers := timers w; clock := clock w;
     exited := exited w; trace := trace w |}.

Definition with_agents (f : JsMap.t Runtime.t -> JsMap.t Runtime.t) (w : world) : world :=
  {| app := app w; agents := f (agents w); server := server w;
     handlers := handlers w; timers := timers w; clock := clock w;
     exited := exited w; trace := trace w |}.

Definition with_server (f : option Listener -> option Listener) (w : world) : world :=
  {| app := app w; agents := agents w; server := f (server w);
     handlers := handlers w; timers := timers w; clock := clock w;
     exited := exited w; trace := trace w |}.

Definition with_handlers (f : list signal -> list signal) (w : world) : world :=
  {| app := app w; agents := agents w; server := server w;
     handlers := f (handlers w); timers := timers w; clock := clock w;
     exited := exited w; trace := trace w |}.

Definition with_timers (f : list (nat * callback) -> list (nat * callback)) (w : world) : world :=
  {| app := app w; agents := agents w; server := server w;
     handlers := handlers w; timers := f (timers w); clock := clock w;
     exited := exited w; trace := trace w |}.

Definition with_clock (f : nat -> nat) (w : world) : world :=
  {| app := app w; agents := agents w; server := server w;
     handlers := handlers w; timers := timers w; clock := f (clock w);
     exited := exited w; trace := trace w |}.

Definition with_exited (f : option Z -> option Z) (w : world) : world :=
  {| app := app w; agents := agents w; server := server w;
     handlers := handlers w; timers := timers w; clock := clock w;
     exited := f (exited w); trace := trace w |}.

Definition with_trace (f : list event -> list event) (w : world) : world :=
  {| app := app w; agents := agents w; server := server w;
     handlers := handlers w; timers := timers w; clock := clock w;
     exited := exited w; trace := f (trace w) |}.

Definition emit (e : event) : world -> world :=
  with_trace (fun t => t ++ [e]).

(** What lies outside the repository: express's router, node's [listen],
    the file system and module resolution, the environment variables. *)
Record Env := {
  express_rejects : verb -> string -> bool;    (* app.METHOD(path, fn) throws *)
  listen_rejects : Js.value -> bool;           (* app.listen(port, cb) throws *)
  cwd : string;                                (* process.cwd() *)
  module_dirname : string;                     (* __dirname *)
  require_resolve : string -> option string;   (* require.resolve(id, {paths: [cwd]}) *)
  path_dirname : string -> string;
  path_join : list string -> string;
  existsSync : string -> bool;
  EXPRESS_MAX_PAYLOAD : option string;
  NODE_ENV : option string
}.

(** ** Computations: state and exceptions *)

Inductive outcome (A : Type) :=
| Ok (a : A)
| Throw (e : error).
Arguments Ok {A} a.
Arguments Throw {A} e.

Definition M (A : Type) : Type := world -> outcome A * world.

Definition ret {A} (a : A) : M A := fun w => (Ok a, w).

Definition bind {A B} (m : M A) (k : A -> M B) : M B :=
  fun w =>
    match m w with
    | (Ok a, w') => k a w'
    | (Throw e, w') => (Throw e, w')
    end.

Definition throw {A} (e : error) : M A := fun w => (Throw e, w).

(** [try { m } catch (error) { h error }] *)
Definition try_catch {A} (m : M A) (h : error -> M A) : M A :=
  fun w =>
    match m w with
    | (Ok a, w') => (Ok a, w')
    | (Throw e, w') => h e w'
    end.

Definition effect (f : world -> world) : M unit := fun w => (Ok tt, f w).

Definition read {A} (f : world -> A) : M A := fun w => (Ok (f w), w).

Declare Scope js_scope.
Delimit Scope js_scope with js.
Notation "x <- m ;; k" := (bind m (fun x => k))
  (at level 61, m at next level, right associativity) : js_scope.
Notation "m ;; k" := (bind m (fun _ => k))
  (at level 61, right associativity) : js_scope.
Local Open Scope js_scope.

(** [for (const x of l) { body x }] *)
Fixpoint for_of {A} (l : list A) (body : A -> M unit) : M unit :=
  match l with
  | [] => ret tt
  | x :: l' => body x ;; for_of l' body
  end.

Definition run {A} (m : M A) (w : world) : world := snd (m w).
Definition result {A} (m : M A) (w : world) : outcome A := fst (m w).

(** [logger.<level>(msg)] and [logger.error(msg, error)] *)
Definition log (l : level) (msg : message) : M unit :=
  effect (emit (Logged l msg None)).
Definition log_error (msg : message) (e : error) : M unit :=
  effect (emit (Logged ERROR msg (Some e))).

(** ** The methods of [AgentServer] *)

Module ServerOptions.
Record t := {
  middlewares : option (list nat);
  dataDir : option string;
  postgresUrl : option string
}.
End ServerOptions.

(** How a loop body ends: by running off its end, or with [continue]. *)
Inductive completion := Normal | Continue.

Module Dir.
(** An entry of [commonDirs]. *)
Record t := { path : string; mount : string }.
End Dir.

Section Methods.
Variable E : Env.

(** *** express and node primitives *)

(** [this.app.use(m)], [this.app.use(mount, express.static(dir, opts))] *)
Definition app_use (l : layer) : M unit :=
  effect (with_app (fun a => a ++ [l])).

(** [this.app.get(path, fn)] and its siblings; express may refuse the path. *)
Definition app_method (v : verb) (path : string) (fn : Wrapper) : M unit :=
  if express_rejects E v path
  then throw (Thrown "express")
  else effect (with_app (fun a => a ++ [Bind v path fn])).

(** [this.app.listen(port, cb)]: the new server, with [cb] waiting for
    ['listening']; node may refuse the port. *)
Definition app_listen (port : Js.value) (cb : callback) : M Listener :=
  effect (emit (Listen port)) ;;
  if listen_rejects E port
  then throw (Thrown "node:net")
  else ret {| port := port; on_listening := [cb]; closing := false; on_close := [] |}.

(** [l.close(cb)] *)
Definition server_close (l : Listener) (cb : callback) : M unit :=
  effect (emit ServerClose) ;;
  effect (with_server (fun _ =>
    Some {| port := port l; on_listening := on_listening l;
            closing := true; on_close := on_close l ++ [cb] |})).

(** [setTimeout(cb, ms)] *)
Definition setTimeout (cb : callback) (ms : nat) : M unit :=
  effect (emit (SetTimeout ms)) ;;
  now <- read clock ;;
  effect (with_timers (fun t => t ++ [(now + ms, cb)])).

(** [process.on(s, gracefulShutdown)] *)
Definition process_on (s : signal) : M unit :=
  effect (emit (ProcessOn s)) ;;
  effect (with_handlers (fun h => h ++ [s])).

(** [process.exit(code)].  It is the last statement of each callback that
    calls it, and the event loop runs nothing once [exited] is set. *)
Definition process_exit (code : Z) : M unit :=
  effect (emit (ProcessExit code)) ;;
  effect (with_exited (fun _ => Some code)).

(** [agent.stop()], for the agent held under key [id] *)
Definition agent_stop (id : UUID) (agent : Runtime.t) : M unit :=
  effect (emit (AgentStop id)) ;;
  match Runtime.stop agent with
  | StopReturns | StopNeverCompletes => ret tt
  | StopThrows => throw (Thrown "agent.stop")
  end.

(** *** registerAgent (lines 332-425) *)

Definition wrap (route : Route.t) (runtime : Runtime.t) : Wrapper :=
  {| wrapped := Route.handler route; owner := runtime |}.

(** Lines 352-366: the TEE plugin's providers and actions. *)
Definition register_tee (runtime : Runtime.t) : M unit :=
  match find (fun p => Plugin.name p =? "phala-tee-plugin") (Runtime.plugins runtime) with
  | None => ret tt
  | Some teePlugin =>
      log DEBUG [Txt ("Found TEE plugin for agent " ++ Runtime.agentId runtime)] ;;
      match Plugin.providers teePlugin with
      | None => throw (TypeError "teePlugin.providers is not iterable")
      | Some providers =>
          for_of providers (fun provider =>
            effect (emit (RegisterProvider (Runtime.agentId runtime) provider)) ;;
            log DEBUG [Txt ("Registered TEE provider: " ++ provider)])
      end ;;
      match Plugin.actions teePlugin with
      | None => throw (TypeError "teePlugin.actions is not iterable")
      | Some actions =>
          for_of actions (fun action =>
            effect (emit (RegisterAction (Runtime.agentId runtime) action)) ;;
            log DEBUG [Txt ("Registered TEE action: " ++ action)])
      end
  end.

(** Lines 376-407: the [switch] on [route.type]. *)
Definition route_switch (runtime : Runtime.t) (route : Route.t) : M completion :=
  let routePath := Route.path route in
  if Route.type route =? "STATIC" then
    app_method GET routePath (wrap route runtime) ;; ret Normal
  else if Route.type route =? "GET" then
    app_method GET routePath (wrap route runtime) ;; ret Normal
  else if Route.type route =? "POST" then
    app_method POST routePath (wrap route runtime) ;; ret Normal
  else if Route.type route =? "PUT" then
    app_method PUT routePath (wrap route runtime) ;; ret Normal
  else if Route.type route =? "DELETE" then
    app_method DELETE routePath (wrap route runtime) ;; ret Normal
  else
    log ERROR [Txt ("Unknown route type: " ++ Route.type route
                    ++ " for path " ++ routePath)] ;;
    ret Continue.

(** Lines 373-416: the body of the loop over [runtime.routes]. *)
Definition mount_route (runtime : Runtime.t) (route : Route.t) : M unit :=
  let routePath := Route.path route in
  try_catch
    (c <- route_switch runtime route ;;
     match c with
     | Continue => ret tt
     | Normal =>
         log DEBUG [Txt ("Registered " ++ Route.type route ++ " route: " ++ routePath)]
     end)
    (fun error =>
       log_error [Txt ("Failed to register route " ++ Route.type route
                       ++ " " ++ routePath ++ ":")] error ;;
       throw error).

Definition registerAgent (runtime : option Runtime.t) : M unit :=
  try_catch
    (match runtime with
     | None => throw (Error [Txt "Attempted to register null/undefined runtime"])
     | Some runtime =>
         if negb (Js.truthy (Js.Str (Runtime.agentId runtime))) then
           throw (Error [Txt "Runtime missing agentId"])
         else
           match Runtime.character runtime with
           | None => throw (Error [Txt "Runtime missing character configuration"])
           | Some character =>
               let id := Runtime.agentId runtime in
               log DEBUG [Txt ("Registering agent: " ++ id ++ " ("
                               ++ Character.name character ++ ")")] ;;
               effect (with_agents (JsMap.set id runtime)) ;;
               log DEBUG [Txt ("Agent " ++ id ++ " added to agents map")] ;;
               register_tee runtime ;;
               log DEBUG [Txt ("Registered reply action for agent " ++ id)] ;;
               log DEBUG [Txt "Registering ";
                          Interp (Js.of_nat (List.length (Runtime.routes runtime)));
                          Txt (" custom routes for agent " ++ id)] ;;
               for_of (Runtime.routes runtime) (mount_route runtime) ;;
               log SUCCESS [Txt ("Successfully registered agent " ++ id ++ " ("
                                 ++ Character.name character ++ ")")]
           end
     end)
    (fun error =>
       log_error [Txt "Failed to register agent:"] error ;;
       throw error).

(** *** unregisterAgent (lines 433-447) *)

Definition unregisterAgent (agentId : UUID) : M unit :=
  if negb (Js.truthy (Js.Str agentId)) then
    log WARN [Txt "[AGENT UNREGISTER] Attempted to unregister undefined or invalid agent runtime"]
  else
    try_catch
      (effect (with_agents (JsMap.delete agentId)) ;;
       log DEBUG [Txt ("Agent " ++ agentId ++ " removed from agents map")])
      (fun error =>
         log_error [Txt ("Error removing agent " ++ agentId ++ ":")] error).

(** *** registerMiddleware (lines 453-455) *)

Definition registerMiddleware (id : nat) : M unit :=
  app_use (Use (Custom id)).

End Methods.

Section Lifecycle.
Variable E : Env.

(** *** initializeServer (lines 146-322) *)

(** Lines 256-269. *)
Definition commonDirs : list Dir.t :=
  [ {| Dir.path := "dist/assets"; Dir.mount := "/assets" |};
    {| Dir.path := "frontend/dist"; Dir.mount := "/" |};
    {| Dir.path := "dist/client"; Dir.mount := "/" |};
    {| Dir.path := "dist"; Dir.mount := "/" |};
    {| Dir.path := "public"; Dir.mount := "/" |};
    {| Dir.path := "static"; Dir.mount := "/" |};
    {| Dir.path := "assets"; Dir.mount := "/assets" |} ].

(** Lines 274-278: the filter that picks [staticRoutes]. *)
Definition is_static_route (route : Route.t) : bool :=
  (Route.type route =? "GET") &&
  (Js.endsWith (Route.path route) "/*" || negb (Js.includes (Route.path route) "api/")).

(** Lines 282-288. *)
Definition basePath_of (route : Route.t) : string :=
  let basePath := Route.path route in
  let basePath :=
    if Js.endsWith basePath "/*" then Js.slice_to_minus 2 basePath else basePath in
  if Js.startsWith basePath "/" then Js.slice_from 1 basePath else basePath.

(** Lines 256-298: [commonDirs] once the plugin's routes have pushed their
    entries. *)
Definition candidate_dirs (plugin : Plugin.t) : list Dir.t :=
  match Plugin.routes plugin with
  | None => commonDirs
  | Some routes =>
      fold_left
        (fun dirs route =>
           let basePath := basePath_of route in
           if Js.truthy (Js.Str basePath)
           then dirs ++ [ {| Dir.path := basePath ++ "/dist";
                             Dir.mount := "/" ++ basePath |} ]
           else dirs)
        (filter is_static_route routes)
        commonDirs
  end.

(** Lines 240-252: where the plugin is installed, if anywhere. *)
Definition plugin_dir (plugin : Plugin.t) : option string :=
  match require_resolve E (Plugin.name plugin ++ "/package.json") with
  | Some packagePath => Some (path_dirname E packagePath)
  | None =>
      let pluginDir := path_join E [cwd E; "node_modules"; Plugin.name plugin] in
      if existsSync E pluginDir then Some pluginDir else None
  end.

(** Lines 300-309. *)
Definition serve_dirs (plugin : Plugin.t) (pluginDir : string)
    (dirs : list Dir.t) : M unit :=
  for_of dirs (fun dir =>
    let dirPath := path_join E [pluginDir; Dir.path dir] in
    if existsSync E dirPath then
      log DEBUG [Txt ("Serving static assets for plugin " ++ Plugin.name plugin
                      ++ " from " ++ dirPath ++ " at " ++ Dir.mount dir)] ;;
      app_use (UseStatic (Dir.mount dir) dirPath true)
    else ret tt).

(** Lines 235-316: the body of the loop over [runtime.plugins]. *)
Definition serve_plugin_assets (plugin : Plugin.t) : M unit :=
  if negb (Js.truthy (Js.Str (Plugin.name plugin))) then ret tt
  else
    try_catch
      (match plugin_dir plugin with
       | None => ret tt
       | Some pluginDir => serve_dirs plugin pluginDir (candidate_dirs plugin)
       end)
      (fun error =>
         log_error [Txt ("Error setting up static assets for plugin "
                         ++ Plugin.name plugin ++ ":")] error).

Definition initializeServer (options : option ServerOptions.t) : M unit :=
  try_catch
    (effect (with_app (fun _ => [])) ;;
     match option_map ServerOptions.middlewares options with
     | Some (Some middlewares) =>
         log DEBUG [Txt "Applying custom middlewares..."] ;;
         for_of middlewares (fun m => app_use (Use (Custom m)))
     | _ => ret tt
     end ;;
     log DEBUG [Txt "Setting up standard middlewares..."] ;;
     app_use (Use Cors) ;;
     app_use (Use BodyParserJson) ;;
     app_use (Use BodyParserUrlencoded) ;;
     app_use (Use (ExpressJson
                     match EXPRESS_MAX_PAYLOAD E with
                     | Some limit => if Js.truthy (Js.Str limit) then limit else "100kb"
                     | None => "100kb"
                     end)) ;;
     let uploadsPath := path_join E [cwd E; "/data/uploads"] in
     let generatedPath := path_join E [cwd E; "/generatedImages"] in
     effect (emit (Mkdir uploadsPath)) ;;
     effect (emit (Mkdir generatedPath)) ;;
     app_use (UseStatic "/media/uploads" uploadsPath false) ;;
     app_use (UseStatic "/media/generated" generatedPath false) ;;
     app_use (Use ContentTypeByExtension) ;;
     let clientPath := path_join E [module_dirname E; ".."; "dist"] in
     log INFO [Txt ("Client build path: " ++ clientPath)] ;;
     app_use (UseStatic "/" clientPath true) ;;
     registry <- read agents ;;
     for_of (JsMap.entries registry) (fun '(_, runtime) =>
       match Runtime.plugins runtime with
       | [] => ret tt
       | plugins => for_of plugins serve_plugin_assets
       end))
    (fun error =>
       log_error [Txt "Failed to initialize server:"] error ;;
       throw error).

(** *** start (lines 463-519), with its [gracefulShutdown] (lines 484-509) *)

Definition gracefulShutdown : M unit :=
  log LOG [Txt "Received shutdown signal, initiating graceful shutdown..."] ;;
  log DEBUG [Txt "Stopping all agents..."] ;;
  registry <- read agents ;;
  for_of (JsMap.entries registry) (fun '(id, agent) =>
    try_catch
      (agent_stop id agent ;;
       log DEBUG [Txt ("Stopped agent " ++ id)])
      (fun error =>
         log_error [Txt ("Error stopping agent " ++ id ++ ":")] error)) ;;
  s <- read server ;;
  match s with
  | None => throw (TypeError "Cannot read properties of undefined (reading 'close')")
  | Some l => server_close l ShutdownCloseCallback
  end ;;
  setTimeout ShutdownTimeoutCallback 5000.

(** Line 465: [!port || typeof port !== "number"]. *)
Definition port_guard (port : Js.value) : bool :=
  negb (Js.truthy port) || negb (Js.typeof port =? "number").

Definition start (port : Js.value) : M unit :=
  try_catch
    (if port_guard port then
       throw (Error [Txt "Invalid port number: "; Interp port])
     else
       log DEBUG [Txt "Starting server on port "; Interp port; Txt "..."] ;;
       n <- read (fun w => JsMap.size (agents w)) ;;
       log DEBUG [Txt "Current agents count: "; Interp (Js.of_nat n)] ;;
       log DEBUG [Txt "Environment: ";
                  Interp match NODE_ENV E with
                         | Some v => Js.Str v
                         | None => Js.Undefined
                         end] ;;
       l <- app_listen E port (ListeningCallback port) ;;
       effect (with_server (fun _ => Some l)) ;;
       process_on SIGTERM ;;
       process_on SIGINT ;;
       log DEBUG [Txt "Shutdown handlers registered"])
    (fun error =>
       log_error [Txt "Failed to start server:"] error ;;
       throw error).

(** *** stop (lines 525-531) *)

Definition stop : M unit :=
  s <- read server ;;
  match s with
  | Some l => server_close l StopCloseCallback
  | None => ret tt
  end.

(** *** The bodies of the callbacks *)

Definition invoke (cb : callback) : M unit :=
  match cb with
  | ListeningCallback port =>
      log SUCCESS [Txt "REST API bound to 0.0.0.0:"; Interp port;
                   Txt ". If running locally, access it at http://localhost:";
                   Interp port; Txt "."] ;;
      n <- read (fun w => JsMap.size (agents w)) ;;
      log DEBUG [Txt "Active agents: "; Interp (Js.of_nat n)] ;;
      registry <- read agents ;;
      for_of (JsMap.entries registry) (fun '(id, agent) =>
        match Runtime.character agent with
        | Some character =>
            log DEBUG [Txt ("- Agent " ++ id ++ ": " ++ Character.name character)]
        | None =>
            throw (TypeError "Cannot read properties of undefined (reading 'name')")
        end)
  | ShutdownCloseCallback =>
      log SUCCESS [Txt "Server closed successfully"] ;;
      process_exit 0
  | ShutdownTimeoutCallback =>
      log ERROR [Txt "Could not close connections in time, forcing shutdown"] ;;
      process_exit 1
  | StopCloseCallback =>
      log SUCCESS [Txt "Server stopped"]
  end.

End Lifecycle.

(** ** The event loop

    JavaScript runs one callback at a time, each to its end.  Between two
    callbacks the outside may call a method, deliver a signal, let the
    listener emit an event, or let time pass. *)

Inductive action :=
| CallRegisterAgent (runtime : option Runtime.t)
| CallUnregisterAgent (agentId : UUID)
| CallRegisterMiddleware (id : nat)
| CallStart (port : Js.value)
| CallStop
| DatabaseReady (options : option ServerOptions.t)   (* lines 124-127 *)
| Signal (s : signal)
| EmitListening
| EmitClose
| Elapse (ms : nat).

Definition alive (w : world) : bool :=
  match exited w with
  | None => true
  | Some _ => false
  end.

(** A callback run by the event loop; an exception nobody catches ends the
    process with status 1. *)
Definition fire (cb : callback) (w : world) : world :=
  if alive w then
    match invoke cb w with
    | (Ok _, w') => w'
    | (Throw e, w') => with_exited (fun _ => Some 1%Z) (emit (UncaughtException e) w')
    end
  else w.

Definition fire_all (cbs : list callback) (w : world) : world :=
  fold_left (fun w cb => fire cb w) cbs w.

(** [gracefulShutdown] as a signal listener.  It is an [async] function: an
    exception inside it rejects a promise nobody holds. *)
Definition on_signal (w : world) : world :=
  if alive w then
    match gracefulShutdown w with
    | (Ok _, w') => w'
    | (Throw e, w') => emit (UnhandledRejection e) w'
    end
  else w.

(** The status of a process ended by a signal it does not handle. *)
Definition killed_status (s : signal) : Z :=
  match s with
  | SIGTERM => 143
  | SIGINT => 130
  end.

Definition deliver (s : signal) (w : world) : world :=
  match filter (signal_eqb s) (handlers w) with
  | [] => with_exited (fun _ => Some (killed_status s)) (emit (KilledBy s) w)
  | listeners => fold_left (fun w _ => on_signal w) listeners w
  end.

(** ['listening'] on [this.server] *)
Definition emit_listening (w : world) : world :=
  match server w with
  | Some l =>
      fire_all (on_listening l)
        (with_server (fun _ =>
           Some {| port := port l; on_listening := []; closing := closing l;
                   on_close := on_close l |}) w)
  | None => w
  end.

(** ['close'] on [this.server]: it comes only after [close()], and its
    listeners were registered with [once]. *)
Definition emit_close (w : world) : world :=
  match server w with
  | Some l =>
      if closing l then
        fire_all (on_close l)
          (with_server (fun _ =>
             Some {| port := port l; on_listening := on_listening l;
                     closing := false; on_close := [] |}) w)
      else w
  | None => w
  end.

(** Timers run in the order they fall due, those due together in the order
    they were armed. *)
Fixpoint insert_timer (t : nat * callback) (l : list (nat * callback)) :
    list (nat * callback) :=
  match l with
  | [] => [t]
  | t' :: l' => if Nat.leb (fst t) (fst t') then t :: l else t' :: insert_timer t l'
  end.

Definition sort_timers (l : list (nat * callback)) : list (nat * callback) :=
  fold_right insert_timer [] l.

Definition elapse (ms : nat) (w : world) : world :=
  let now := clock w + ms in
  let due := filter (fun t => Nat.leb (fst t) now) (timers w) in
  let later := filter (fun t => negb (Nat.leb (fst t) now)) (timers w) in
  fire_all (map snd (sort_timers due))
    (with_clock (fun _ => now) (with_timers (fun _ => later) w)).

Section EventLoop.
Variable E : Env.

(** Lines 124-127: the database is ready. *)
Definition database_ready (options : option ServerOptions.t) (w : world) : world :=
  match (log SUCCESS [Txt "Database initialized successfully"] ;;
         initializeServer E options) w with
  | (Ok _, w') => w'
  | (Throw e, w') => emit (UnhandledRejection e) w'
  end.

(** One turn of the loop.  A method called from outside returns or throws
    to its caller, who is not part of this file. *)
Definition step (w : world) (a : action) : world :=
  if alive w then
    match a with
    | CallRegisterAgent runtime => run (registerAgent E runtime) w
    | CallUnregisterAgent agentId => run (unregisterAgent agentId) w
    | CallRegisterMiddleware id => run (registerMiddleware id) w
    | CallStart port => run (start E port) w
    | CallStop => run stop w
    | DatabaseReady options => database_ready options w
    | Signal s => deliver s w
    | EmitListening => emit_listening w
    | EmitClose => emit_close w
    | Elapse ms => elapse ms w
    end
  else w.

Definition exec (w : world) (acts : list action) : world :=
  fold_left step acts w.

End EventLoop.

(** [new AgentServer()]: an empty application and an empty registry (lines
    100-101); no listener, no handler, no timer. *)
Definition new_AgentServer : world :=
  {| app := []; agents := JsMap.empty; server := None; handlers := [];
     timers := []; clock := 0; exited := None; trace := [] |}.

(** ** What a trace says *)

(** The agents whose [stop()] was called, in order. *)
Definition stop_calls (t : list event) : list UUID :=
  flat_map (fun e => match e with AgentStop id => [id] | _ => [] end) t.

(** The statuses [process.exit] was called with. *)
Definition exit_calls (t : list event) : list Z :=
  flat_map (fun e => match e with ProcessExit c => [c] | _ => [] end) t.

(** The calls of [close()] on the listener. *)
Definition close_calls (t : list event) : nat :=
  List.length (filter (fun e => match e with ServerClose => true | _ => false end) t).

(** The ports [listen] was called with. *)
Definition listen_calls (t : list event) : list Js.value :=
  flat_map (fun e => match e with Listen p => [p] | _ => [] end) t.

(** The messages logged at a level. *)
Definition logged (l : level) (t : list event) : list message :=
  flat_map (fun e =>
    match e with
    | Logged l' msg _ =>
        match l, l' with
        | LOG, LOG | INFO, INFO | DEBUG, DEBUG
        | SUCCESS, SUCCESS | WARN, WARN | ERROR, ERROR => [msg]
        | _, _ => []
        end
    | _ => []
    end) t.

(** The route bindings and the static mounts among the layers. *)
Definition bindings (a : list layer) : list layer :=
  filter (fun l => match l with Bind _ _ _ => true | _ => false end) a.
Definition static_mounts (a : list layer) : list layer :=
  filter (fun l => match l with UseStatic _ _ _ => true | _ => false end) a.


(** ** Views of the world, and relations between its states *)

(** What the lifecycle code owns: the listener, the signal handlers, the
    timers, the clock, the exit status, and the lifecycle calls made so far. *)
Definition lifecycle_view (w : world) :=
  (server w, handlers w, timers w, clock w, exited w,
   exit_calls (trace w), stop_calls (trace w), close_calls (trace w),
   listen_calls (trace w)).

(** What the registry code owns. *)
Definition registry_view (w : world) := (agents w, app w).

(** A relation between the world before and the world after that every
    step of a computation may be checked against. *)
Class Frame (R : world -> world -> Prop) : Prop := {
  frame_refl : forall w, R w w;
  frame_trans : forall a b c, R a b -> R b c -> R a c
}.

Definition keeps (R : world -> world -> Prop) {A} (m : M A) : Prop :=
  forall w, R w (run m w).

(** [f] reads the same after as before. *)
Definition unchanged {X} (f : world -> X) : world -> world -> Prop :=
  fun w w' => f w' = f w.

(** What one pass of the loop of lines 489-496 leaves in the trace. *)
Definition stop_trace (entries : list (UUID * Runtime.t)) : list event :=
  flat_map (fun '(id, agent) =>
    [ AgentStop id;
      match Runtime.stop agent with
      | StopThrows =>
          Logged ERROR [Txt ("Error stopping agent " ++ id ++ ":")]
            (Some (Thrown "agent.stop"))
      | _ => Logged DEBUG [Txt ("Stopped agent " ++ id)] None
      end ]) entries.

(** The listeners this file ever puts on ['close']. *)
Definition is_close_listener (cb : callback) : bool :=
  match cb with
  | ShutdownCloseCallback | StopCloseCallback => true
  | _ => false
  end.

(** What holds of every world the event loop can reach. *)
Record consistent (w : world) : Prop := {
  registry_wf : JsMap.wf (agents w);
  exit_once :
    exit_calls (trace w) = [] \/
    exists c, exit_calls (trace w) = [c] /\ exited w = Some c;
  timers_force : Forall (fun t => snd t = ShutdownTimeoutCallback) (timers w);
  close_listeners :
    forall l, server w = Some l ->
      Forall (fun cb => is_close_listener cb = true) (on_close l);
  handlers_have_server : handlers w <> [] -> server w <> None
}.

(** A handle that [registerAgent] accepts: it has an identifier and a
    character. *)
Definition valid_runtime (r : Runtime.t) : bool :=
  Js.truthy (Js.Str (Runtime.agentId r)) &&
  match Runtime.character r with
  | Some _ => true
  | None => false
  end.

(** ** The specification's vocabulary *)

(** The five method classifiers the [switch] of lines 376-407 knows. *)
Definition known_type (t : string) : bool :=
  (t =? "STATIC") || (t =? "GET") || (t =? "POST") || (t =? "PUT") || (t =? "DELETE").

(** The express method a classifier is bound with. *)
Definition verb_of (t : string) : verb :=
  if t =? "POST" then POST
  else if t =? "PUT" then PUT
  else if t =? "DELETE" then DELETE
  else GET.

(** The binding of a route descriptor: its path under the classifier's
    method, its handler wrapped together with the owning agent. *)
Definition binding_of (runtime : Runtime.t) (route : Route.t) : layer :=
  Bind (verb_of (Route.type route)) (Route.path route)
    {| wrapped := Route.handler route; owner := runtime |}.

(** A simple GET binding, in the words of the specification: the path bound
    with [GET] to a wrapper of the same handler and the same owning agent. *)
Definition spec_get_binding (runtime : Runtime.t) (route : Route.t) : layer :=
  Bind GET (Route.path route)
    {| wrapped := Route.handler route; owner := runtime |}.

(** The same descriptor under another classifier. *)
Definition retyped (t : string) (route : Route.t) : Route.t :=
  {| Route.type := t; Route.path := Route.path route;
     Route.handler := Route.handler route |}.

(** The TEE plugin, when there is one, has both of its lists. *)
Definition tee_ready (runtime : Runtime.t) : bool :=
  match find (fun p => Plugin.name p =? "phala-tee-plugin") (Runtime.plugins runtime) with
  | None => true
  | Some p =>
      match Plugin.providers p, Plugin.actions p with
      | Some _, Some _ => true
      | _, _ => false
      end
  end.

(** The message logged for a route whose classifier is not known. *)
Definition unknown_route_message (route : Route.t) : message :=
  [Txt ("Unknown route type: " ++ Route.type route
        ++ " for path " ++ Route.path route)].

(** The candidate for a route, as the specification words it:
    [<base>/dist] mounted at [/<base>]. *)
Definition route_candidate (route : Route.t) : Dir.t :=
  {| Dir.path := basePath_of route ++ "/dist";
     Dir.mount := "/" ++ basePath_of route |}.

(** The candidate list in the words of the specification: the fixed list,
    then one candidate per qualifying GET route. *)
Definition spec_candidate_dirs (plugin : Plugin.t) : list Dir.t :=
  commonDirs ++
  map route_candidate
    (filter is_static_route
       match Plugin.routes plugin with
       | Some routes => routes
       | None => []
       end).

(** The static mount of a candidate directory found under [pluginDir]. *)
Definition mount_of (E : Env) (pluginDir : string) (dir : Dir.t) : layer :=
  UseStatic (Dir.mount dir) (path_join E [pluginDir; Dir.path dir]) true.

(** What the loop over the routes logs for a route it gets past. *)
Definition mount_event (route : Route.t) : event :=
  if known_type (Route.type route) then
    Logged DEBUG [Txt ("Registered " ++ Route.type route ++ " route: "
                       ++ Route.path route)] None
  else
    Logged ERROR (unknown_route_message route) None.

(** A computation that throws from every world. *)
Definition throws {A} (m : M A) : Prop :=
  forall w, exists e, result m w = Throw e.

(** What the asset resolver logs for a candidate directory it mounts. *)
Definition serve_event (E : Env) (plugin : Plugin.t) (pluginDir : string)
    (dir : Dir.t) : event :=
  Logged DEBUG
    [Txt ("Serving static assets for plugin " ++ Plugin.name plugin
          ++ " from " ++ path_join E [pluginDir; Dir.path dir]
          ++ " at " ++ Dir.mount dir)] None.

(** The world after one run of [gracefulShutdown] on a server whose listener
    is [l]: the agents were asked to stop, [close] was called on the listener
    and the five-second timer was armed. *)
Definition drained (w : world) (l : Listener) : world :=
  {| app := app w; agents := agents w;
     server := Some {| port := port l; on_listening := on_listening l;
                       closing := true;
                       on_close := on_close l ++ [ShutdownCloseCallback] |};
     handlers := handlers w;
     timers := timers w ++ [(clock w + 5000, ShutdownTimeoutCallback)];
     clock := clock w; exited := exited w;
     trace :=
       trace w
       ++ [Logged LOG [Txt "Received shutdown signal, initiating graceful shutdown..."] None;
           Logged DEBUG [Txt "Stopping all agents..."] None]
       ++ stop_trace (agents w)
       ++ [ServerClose; SetTimeout 5000] |}.

(** ** A small installation to run the model on *)

Module Sample.

(** Node refuses a port that is not an integer from 1 to 65535 (0 never
    reaches it); express refuses a path that does not start with a slash;
    one plugin is installed, with a [dist] and a [portal/dist] directory. *)
Definition env : Env :=
  {| express_rejects := fun _ p => negb (Js.startsWith p "/");
     listen_rejects := fun v =>
       negb (Js.positive_integer v &&
             match v with
             | Js.Number (Js.Finite q) => (Qnum q <=? 65535)%Z
             | _ => false
             end);
     cwd := "/srv";
     module_dirname := "/srv/app/server";
     require_resolve := fun _ => None;
     path_dirname := fun p => p;
     path_join := String.concat "/";
     existsSync := fun p =>
       (p =? "/srv/node_modules/portal") ||
       (p =? "/srv/node_modules/portal/dist") ||
       (p =? "/srv/node_modules/portal/portal/dist");
     EXPRESS_MAX_PAYLOAD := None;
     NODE_ENV := None |}.

Definition portal : Route.t :=
  {| Route.type := "GET"; Route.path := "/portal/*"; Route.handler := 1 |}.
Definition patch : Route.t :=
  {| Route.type := "PATCH"; Route.path := "/things"; Route.handler := 2 |}.
Definition submit : Route.t :=
  {| Route.type := "POST"; Route.path := "/submit"; Route.handler := 3 |}.
Definition catch_all : Route.t :=
  {| Route.type := "GET"; Route.path := "/*"; Route.handler := 4 |}.
Definition broken : Route.t :=
  {| Route.type := "GET"; Route.path := "no-slash"; Route.handler := 5 |}.

Definition portal_plugin : Plugin.t :=
  {| Plugin.name := "portal"; Plugin.routes := Some [portal];
     Plugin.providers := None; Plugin.actions := None |}.
Definition catch_all_plugin : Plugin.t :=
  {| Plugin.name := "portal"; Plugin.routes := Some [catch_all];
     Plugin.providers := None; Plugin.actions := None |}.

Definition eliza : Runtime.t :=
  {| Runtime.agentId := "a1";
     Runtime.character := Some {| Character.name := "Eliza" |};
     Runtime.plugins := [portal_plugin];
     Runtime.routes := [portal; patch; submit];
     Runtime.stop := StopNeverCompletes |}.

(** A second handle under the same identifier. *)
Definition eliza2 : Runtime.t :=
  {| Runtime.agentId := "a1";
     Runtime.character := Some {| Character.name := "Eliza II" |};
     Runtime.plugins := [];
     Runtime.routes := [];
     Runtime.stop := StopReturns |}.

(** A handle whose second route express refuses. *)
Definition faulty : Runtime.t :=
  {| Runtime.agentId := "a2";
     Runtime.character := Some {| Character.name := "Faulty" |};
     Runtime.plugins := [];
     Runtime.routes := [submit; broken; portal];
     Runtime.stop := StopReturns |}.

(** One agent registered, the server listening on port 3000. *)
Definition started : world :=
  exec env new_AgentServer
    [CallRegisterAgent (Some eliza); CallStart (Js.of_Z 3000)].

(** Then both termination signals arrive. *)
Definition signalled_twice : world :=
  exec env started [Signal SIGTERM; Signal SIGINT].

(** Or [stop()] is called, the listener closes, and ten seconds pass. *)
Definition stopped : world :=
  exec env started [CallStop; EmitClose; Elapse 5000; Elapse 5000].

End Sample.

(** * The rest of the file *)

(** ** [String.prototype] methods used outside the class *)

Module JsString.




End JsString.

(** ** [expandTildePath] (lines 535-540) *)


(** ** [AGENT_RUNTIME_URL] (lines 68-69) *)

(** [s.replace(/\/$/, "")] *)
Definition strip_trailing_slash (s : string) : string :=
  if Js.endsWith s "/" then Js.slice_to_minus 1 s else s.

(** [process.env.AGENT_RUNTIME_URL?.replace(/\/$/, "") || "http://localhost:3000"] *)
Definition AGENT_RUNTIME_URL (env : option string) : string :=
  match env with
  | Some url =>
      if Js.truthy (Js.Str (strip_trailing_slash url))
      then strip_trailing_slash url
      else "http://localhost:3000"
  | None => "http://localhost:3000"
  end.

(** ** The content types set by extension *)





(** ** Vocabulary for the properties below *)

(** A handle [registerAgent] goes on with. *)
Definition accepts_handle (runtime : option Runtime.t) : bool :=
  match runtime with
  | Some r => valid_runtime r
  | None => false
  end.

(** The message of the error an unacceptable handle is refused with: the
    checks of lines 334-342, in their order. *)
Definition refusal (runtime : option Runtime.t) : message :=
  match runtime with
  | None => [Txt "Attempted to register null/undefined runtime"]
  | Some r =>
      if Js.truthy (Js.Str (Runtime.agentId r))
      then [Txt "Runtime missing character configuration"]
      else [Txt "Runtime missing agentId"]
  end.

(** Every entry of the registry is a valid handle under its own identifier. *)
Definition registry_valid (m : JsMap.t Runtime.t) : Prop :=
  Forall (fun kv => fst kv = Runtime.agentId (snd kv) /\ valid_runtime (snd kv) = true) m.




(** The application has [a] and perhaps more after it. *)
Definition app_extends (w w' : world) : Prop :=
  exists more, app w' = app w ++ more.

(** The calls of [runtime.registerProvider] and [runtime.registerAction]. *)
Definition capability_calls (t : list event) : list event :=
  filter (fun e =>
    match e with
    | RegisterProvider _ _ | RegisterAction _ _ => true
    | _ => false
    end) t.

(** What the TEE plugin of a handle makes [registerAgent] register: the
    providers of the first plugin of that name, then its actions, as far as
    the two loops of lines 358-365 get. *)
Definition tee_calls (runtime : Runtime.t) : list event :=
  match find (fun p => Plugin.name p =? "phala-tee-plugin") (Runtime.plugins runtime) with
  | None => []
  | Some p =>
      match Plugin.providers p with
      | None => []
      | Some providers =>
          map (RegisterProvider (Runtime.agentId runtime)) providers ++
          match Plugin.actions p with
          | None => []
          | Some actions => map (RegisterAction (Runtime.agentId runtime)) actions
          end
      end
  end.

(** The agents whose [stop] throws. *)
Definition stop_throws (agent : Runtime.t) : bool :=
  match Runtime.stop agent with
  | StopThrows => true
  | _ => false
  end.


Definition is_database_ready (a : action) : bool :=
  match a with
  | DatabaseReady _ => true
  | _ => false
  end.


Definition is_registry_call (a : action) : bool :=
  match a with
  | CallRegisterAgent _ | CallUnregisterAgent _ => true
  | _ => false
  end.

(** What the loop over the routes logs for the route express refuses. *)
Definition route_failure (route : Route.t) : event :=
  Logged ERROR
    [Txt ("Failed to register route " ++ Route.type route ++ " "
          ++ Route.path route ++ ":")]
    (Some (Thrown "express")).

(** The forced exit is still to come: while the process runs, the timer due
    at [due] is armed and the clock has not reached it. *)
Definition armed (due : nat) (w : world) : Prop :=
  alive w = true ->
  In (due, ShutdownTimeoutCallback) (timers w) /\ clock w < due.

(** The message logged for an agent whose [stop] threw. *)
Definition stop_failure (entry : UUID * Runtime.t) : message :=
  [Txt ("Error stopping agent " ++ fst entry ++ ":")].

(** The handlers registered for a signal. *)
Definition listeners_of (s : signal) (w : world) : nat :=
  List.length (filter (signal_eqb s) (handlers w)).

(** ** More of the small installation *)

Module Sample2.

Definition tee : Plugin.t :=
  {| Plugin.name := "phala-tee-plugin"; Plugin.routes := None;
     Plugin.providers := Some ["deriveKey"; "remoteAttestation"];
     Plugin.actions := Some ["attest"] |}.

(** A later plugin of the same name; it is never looked at. *)
Definition tee_again : Plugin.t :=
  {| Plugin.name := "phala-tee-plugin"; Plugin.routes := None;
     Plugin.providers := Some ["other"]; Plugin.actions := None |}.

Definition guarded : Runtime.t :=
  {| Runtime.agentId := "a3";
     Runtime.character := Some {| Character.name := "Guarded" |};
     Runtime.plugins := [Sample.portal_plugin; tee; tee_again];
     Runtime.routes := [];
     Runtime.stop := StopThrows |}.

(** Three agents, the second of which throws when stopped; [start] was called
    twice. *)
Definition started_twice : world :=
  exec Sample.env new_AgentServer
    [CallRegisterAgent (Some Sample.eliza); CallRegisterAgent (Some guarded);
     CallRegisterAgent (Some Sample.faulty);
     CallStart (Js.of_Z 3000); CallStart (Js.of_Z 3001)].

End Sample2.

(** The clock stands still and no timer is disarmed. *)
Definition timers_kept (w w' : world) : Prop :=
  clock w' = clock w /\ incl (timers w) (timers w').

(** * Properties *)

(** ** The registry as a [Map] *)

Module JsMapFacts.
Import JsMap.
Section WithValue.
Context {V : Type}.
Implicit Types (m : JsMap.t V) (k : string) (v : V).

Lemma keys_set_in k v m : In k (keys m) -> keys (set k v m) = keys m.
Proof.
  induction m as [|[k' v'] m IH]; simpl; [tauto|].
  destruct (String.eqb_spec k' k) as [->|Hne]; [reflexivity|].
  intros [Heq|Hin]; [congruence|]. simpl. now rewrite IH.
Qed.

Lemma keys_set_new k v m : ~ In k (keys m) -> keys (set k v m) = keys m ++ [k].
Proof.
  induction m as [|[k' v'] m IH]; simpl; [reflexivity|].
  destruct (String.eqb_spec k' k) as [->|Hne]; [tauto|].
  intros Hn. simpl. rewrite IH; tauto.
Qed.

Lemma in_keys_set k v m : In k (keys (set k v m)).
Proof.
  induction m as [|[k' v'] m IH]; simpl; [auto|].
  destruct (String.eqb_spec k' k); simpl; auto.
Qed.

Lemma set_wf k v m : wf m -> wf (set k v m).
Proof.
  unfold wf. intros Hm.
  destruct (in_dec string_dec k (keys m)) as [Hin|Hn].
  - now rewrite keys_set_in.
  - rewrite keys_set_new by assumption.
    apply NoDup_app; [assumption|repeat constructor; simpl; tauto|].
    intros x Hx [<-|[]]. tauto.
Qed.

Lemma get_set_same k v m : get k (set k v m) = Some v.
Proof.
  induction m as [|[k' v'] m IH]; simpl.
  - now rewrite String.eqb_refl.
  - destruct (String.eqb_spec k' k) as [->|Hne]; simpl.
    + now rewrite String.eqb_refl.
    + destruct (String.eqb_spec k' k); [congruence|assumption].
Qed.

Lemma get_set_other k k' v m : k' <> k -> get k' (set k v m) = get k' m.
Proof.
  intros Hne. induction m as [|[k0 v0] m IH]; simpl.
  - destruct (String.eqb_spec k k'); congruence.
  - destruct (String.eqb_spec k0 k) as [->|Hk]; simpl.
    + destruct (String.eqb_spec k k'); congruence.
    + now rewrite IH.
Qed.

Lemma size_set_in k v m : In k (keys m) -> size (set k v m) = size m.
Proof.
  intros H. unfold size. rewrite <- !(length_map fst).
  change (List.length (keys (set k v m)) = List.length (keys m)).
  now rewrite keys_set_in.
Qed.

Lemma keys_delete_subset k m x : In x (keys (delete k m)) -> In x (keys m).
Proof.
  induction m as [|[k' v'] m IH]; simpl; [tauto|].
  destruct (String.eqb_spec k' k); simpl; tauto.
Qed.

Lemma delete_wf k m : wf m -> wf (delete k m).
Proof.
  unfold wf. induction m as [|[k' v'] m IH]; simpl; [auto|].
  intros Hm. inversion_clear Hm as [|? ? Hn Hm'].
  destruct (String.eqb_spec k' k); simpl; [assumption|].
  constructor; [|auto]. intros Hin. apply Hn. eapply keys_delete_subset, Hin.
Qed.

Lemma get_none_iff k m : get k m = None <-> ~ In k (keys m).
Proof.
  induction m as [|[k' v'] m IH]; simpl; [tauto|].
  destruct (String.eqb_spec k' k) as [->|Hne].
  - split; [discriminate|tauto].
  - rewrite IH. tauto.
Qed.

Lemma get_delete_same k m : wf m -> get k (delete k m) = None.
Proof.
  unfold wf. induction m as [|[k' v'] m IH]; simpl; [auto|].
  intros Hm. inversion_clear Hm as [|? ? Hn Hm'].
  destruct (String.eqb_spec k' k) as [->|Hne]; simpl.
  - now apply get_none_iff.
  - destruct (String.eqb_spec k' k); [congruence|auto].
Qed.

Lemma get_delete_other k k' m : k' <> k -> get k' (delete k m) = get k' m.
Proof.
  intros Hne. induction m as [|[k0 v0] m IH]; simpl; [reflexivity|].
  destruct (String.eqb_spec k0 k) as [->|Hk]; simpl.
  - destruct (String.eqb_spec k k'); congruence.
  - now rewrite IH.
Qed.

Lemma count_keys_wf k m :
  wf m -> In k (keys m) -> count_occ string_dec (keys m) k = 1.
Proof.
  intros Hm Hin. now apply (proj1 (NoDup_count_occ' string_dec (keys m)) Hm).
Qed.

End WithValue.
End JsMapFacts.

(** ** Laws of the monad, and what a computation leaves alone *)

Lemma run_bind {A B} (m : M A) (k : A -> M B) w :
  run (bind m k) w =
  match result m w with
  | Ok a => run (k a) (run m w)
  | Throw _ => run m w
  end.
Proof. unfold run, result, bind. now destruct (m w) as [[a|e] w']. Qed.

Lemma result_bind {A B} (m : M A) (k : A -> M B) w :
  result (bind m k) w =
  match result m w with
  | Ok a => result (k a) (run m w)
  | Throw e => Throw e
  end.
Proof. unfold run, result, bind. now destruct (m w) as [[a|e] w']. Qed.

Lemma run_try_catch {A} (m : M A) h w :
  run (try_catch m h) w =
  match result m w with
  | Ok _ => run m w
  | Throw e => run (h e) (run m w)
  end.
Proof. unfold run, result, try_catch. now destruct (m w) as [[a|e] w']. Qed.

Lemma result_try_catch {A} (m : M A) h w :
  result (try_catch m h) w =
  match result m w with
  | Ok a => Ok a
  | Throw e => result (h e) (run m w)
  end.
Proof. unfold run, result, try_catch. now destruct (m w) as [[a|e] w']. Qed.

#[export] Instance unchanged_frame {X} (f : world -> X) : Frame (unchanged f).
Proof. split; unfold unchanged; intros; congruence. Qed.

Section FrameRules.
Context (R : world -> world -> Prop) `{!Frame R}.

Lemma keeps_ret {A} (a : A) : keeps R (ret a).
Proof. intros w. apply frame_refl. Qed.

Lemma keeps_throw {A} e : keeps R (@throw A e).
Proof. intros w. apply frame_refl. Qed.

Lemma keeps_read {A} (f : world -> A) : keeps R (read f).
Proof. intros w. apply frame_refl. Qed.

Lemma keeps_effect f : (forall w, R w (f w)) -> keeps R (effect f).
Proof. intros H w. apply H. Qed.

Lemma keeps_bind {A B} (m : M A) (k : A -> M B) :
  keeps R m -> (forall a, keeps R (k a)) -> keeps R (bind m k).
Proof.
  intros Hm Hk w. rewrite run_bind.
  destruct (result m w); [eapply frame_trans; [apply Hm|apply Hk]|apply Hm].
Qed.

Lemma keeps_try_catch {A} (m : M A) h :
  keeps R m -> (forall e, keeps R (h e)) -> keeps R (try_catch m h).
Proof.
  intros Hm Hh w. rewrite run_try_catch.
  destruct (result m w); [apply Hm|eapply frame_trans; [apply Hm|apply Hh]].
Qed.

Lemma keeps_for_of {A} (l : list A) body :
  (forall x, keeps R (body x)) -> keeps R (for_of l body).
Proof.
  intros Hb. induction l as [|x l IH]; simpl.
  - apply keeps_ret.
  - apply keeps_bind; auto.
Qed.

End FrameRules.

(** ** Reading a trace that grew *)

Lemma exit_calls_app t u : exit_calls (t ++ u) = exit_calls t ++ exit_calls u.
Proof. apply flat_map_app. Qed.

Lemma stop_calls_app t u : stop_calls (t ++ u) = stop_calls t ++ stop_calls u.
Proof. apply flat_map_app. Qed.

Lemma listen_calls_app t u : listen_calls (t ++ u) = listen_calls t ++ listen_calls u.
Proof. apply flat_map_app. Qed.

Lemma logged_app l t u : logged l (t ++ u) = logged l t ++ logged l u.
Proof. apply flat_map_app. Qed.

Lemma close_calls_app t u : close_calls (t ++ u) = close_calls t + close_calls u.
Proof. unfold close_calls. now rewrite filter_app, length_app. Qed.

Lemma close_calls_cons e t :
  close_calls (e :: t)
  = match e with ServerClose => 1 | _ => 0 end + close_calls t.
Proof. unfold close_calls. cbn [filter]. now destruct e. Qed.

Lemma close_calls_nil : close_calls [] = 0.
Proof. reflexivity. Qed.

Create Rewrite HintDb trace.
#[export] Hint Rewrite close_calls_cons close_calls_nil : trace.
#[export] Hint Rewrite exit_calls_app stop_calls_app listen_calls_app
  close_calls_app logged_app : trace.
#[export] Hint Rewrite app_nil_r Nat.add_0_r : trace.

(** Closes a goal that compares a view before and after one primitive. *)
Ltac view_leaf :=
  unfold unchanged, lifecycle_view, registry_view, emit;
  cbn [with_app with_agents with_server with_handlers with_timers with_clock
       with_exited with_trace app agents server handlers timers clock exited trace];
  autorewrite with trace; cbn; autorewrite with trace; try reflexivity.

(** Walks a computation, leaving one goal per primitive that the relation
    does not obviously allow. *)
Ltac frame :=
  repeat
    lazymatch goal with
    | |- keeps _ (ret _) => refine (keeps_ret _ _)
    | |- keeps _ (throw _) => refine (keeps_throw _ _)
    | |- keeps _ (read _) => refine (keeps_read _ _)
    | |- keeps _ (bind _ _) => refine (keeps_bind _ _ _ _ _); [|intros ?]
    | |- keeps _ (try_catch _ _) => refine (keeps_try_catch _ _ _ _ _); [|intros ?]
    | |- keeps _ (for_of _ _) => refine (keeps_for_of _ _ _ _); intros ?
    | |- keeps _ (effect _) => refine (keeps_effect _ _ _); intros ?; view_leaf
    | |- keeps _ (match ?x with _ => _ end) => destruct x
    | |- keeps _ (log _ _) => unfold log
    | |- keeps _ (log_error _ _) => unfold log_error
    | |- keeps _ (app_use _) => unfold app_use
    | |- keeps _ (app_method _ _ _ _) => unfold app_method
    | |- keeps _ (app_listen _ _ _) => unfold app_listen
    | |- keeps _ (server_close _ _) => unfold server_close
    | |- keeps _ (setTimeout _ _) => unfold setTimeout
    | |- keeps _ (process_on _) => unfold process_on
    | |- keeps _ (process_exit _) => unfold process_exit
    | |- keeps _ (agent_stop _ _) => unfold agent_stop
    | |- keeps _ ?m => fail
    end.

Section RegistryFrames.
Variable E : Env.

Lemma register_tee_lifecycle rt : keeps (unchanged lifecycle_view) (register_tee rt).
Proof. unfold register_tee. frame. Qed.

Lemma route_switch_lifecycle rt r : keeps (unchanged lifecycle_view) (route_switch E rt r).
Proof. unfold route_switch. frame. Qed.

Lemma mount_route_lifecycle rt r : keeps (unchanged lifecycle_view) (mount_route E rt r).
Proof. unfold mount_route. frame. apply route_switch_lifecycle. Qed.

Lemma registerAgent_lifecycle rt : keeps (unchanged lifecycle_view) (registerAgent E rt).
Proof.
  unfold registerAgent. frame.
  - apply register_tee_lifecycle.
  - apply mount_route_lifecycle.
Qed.

Lemma unregisterAgent_lifecycle id : keeps (unchanged lifecycle_view) (unregisterAgent id).
Proof. unfold unregisterAgent. frame. Qed.

Lemma registerMiddleware_lifecycle id :
  keeps (unchanged lifecycle_view) (registerMiddleware id).
Proof. unfold registerMiddleware. frame. Qed.

Lemma serve_plugin_assets_lifecycle p :
  keeps (unchanged lifecycle_view) (serve_plugin_assets E p).
Proof. unfold serve_plugin_assets, serve_dirs. frame. Qed.

Lemma initializeServer_lifecycle o :
  keeps (unchanged lifecycle_view) (initializeServer E o).
Proof.
  unfold initializeServer. frame; apply serve_plugin_assets_lifecycle.
Qed.

End RegistryFrames.

(** ** Worlds are equal when their fields are *)

Lemma world_ext w1 w2 :
  app w1 = app w2 -> agents w1 = agents w2 -> server w1 = server w2 ->
  handlers w1 = handlers w2 -> timers w1 = timers w2 -> clock w1 = clock w2 ->
  exited w1 = exited w2 -> trace w1 = trace w2 -> w1 = w2.
Proof. destruct w1, w2; cbn; intros; subst; reflexivity. Qed.

(** Reads a field through the updates made on the way. *)
Ltac fields :=
  cbn [app agents server handlers timers clock exited trace
       with_app with_agents with_server with_handlers with_timers with_clock
       with_exited with_trace emit fst snd].

(** Two results are equal: same outcome, same fields. *)
Ltac same_world :=
  apply f_equal2; [reflexivity|];
  apply world_ext; fields; rewrite <- ?app_assoc; try reflexivity.

(** ** The lifecycle methods, step by step *)

Lemma run_effect_bind {B} f (k : unit -> M B) w :
  bind (effect f) k w = k tt (f w).
Proof. reflexivity. Qed.

Lemma stop_loop_spec entries w :
  for_of entries (fun '(id, agent) =>
    try_catch
      (agent_stop id agent ;;
       log DEBUG [Txt ("Stopped agent " ++ id)])
      (fun error =>
         log_error [Txt ("Error stopping agent " ++ id ++ ":")] error)) w
  = (Ok tt, with_trace (fun _ => trace w ++ stop_trace entries) w).
Proof.
  revert w. induction entries as [|[id agent] entries IH]; intros w.
  - cbn [for_of stop_trace flat_map]. unfold ret. same_world. now rewrite app_nil_r.
  - cbn [for_of]. unfold bind at 1.
    unfold try_catch, agent_stop, log, log_error, bind, effect.
    destruct (Runtime.stop agent) eqn:Hs; cbn [ret throw];
      rewrite IH; same_world; cbn [stop_trace flat_map];
      rewrite Hs; reflexivity.
Qed.

Lemma stop_calls_stop_trace entries :
  stop_calls (stop_trace entries) = JsMap.keys entries.
Proof.
  induction entries as [|[id agent] entries IH]; [reflexivity|].
  unfold JsMap.keys in *. cbn. destruct (Runtime.stop agent); cbn; now rewrite <- IH.
Qed.

Lemma exit_calls_stop_trace entries : exit_calls (stop_trace entries) = [].
Proof.
  induction entries as [|[id agent] entries IH]; [reflexivity|].
  cbn. destruct (Runtime.stop agent); cbn; assumption.
Qed.

Lemma close_calls_stop_trace entries : close_calls (stop_trace entries) = 0.
Proof.
  induction entries as [|[id agent] entries IH]; [reflexivity|].
  cbn. destruct (Runtime.stop agent); cbn; assumption.
Qed.

Lemma listen_calls_stop_trace entries : listen_calls (stop_trace entries) = [].
Proof.
  induction entries as [|[id agent] entries IH]; [reflexivity|].
  cbn. destruct (Runtime.stop agent); cbn; assumption.
Qed.

#[export] Hint Rewrite exit_calls_stop_trace stop_calls_stop_trace
  close_calls_stop_trace listen_calls_stop_trace : trace.

(** Computes what a trace that grew by known events says. *)
Ltac trace_calc :=
  fields; autorewrite with trace; simpl; autorewrite with trace.

(** [gracefulShutdown] on a server that has a listener. *)
Lemma gracefulShutdown_spec w l :
  server w = Some l -> gracefulShutdown w = (Ok tt, drained w l).
Proof.
  intros Hs. unfold gracefulShutdown, log.
  rewrite !run_effect_bind. unfold bind at 1. unfold read at 1.
  unfold bind at 1. unfold JsMap.entries. rewrite stop_loop_spec.
  unfold bind at 1, read at 1. fields.
  rewrite Hs. unfold server_close, setTimeout, bind, effect, read, drained.
  same_world.
Qed.

(** Without a listener the handler throws after the agents were stopped. *)
Lemma gracefulShutdown_no_server w :
  server w = None ->
  gracefulShutdown w =
  (Throw (TypeError "Cannot read properties of undefined (reading 'close')"),
   with_trace (fun _ =>
     trace w
     ++ [Logged LOG [Txt "Received shutdown signal, initiating graceful shutdown..."] None;
         Logged DEBUG [Txt "Stopping all agents..."] None]
     ++ stop_trace (agents w)) w).
Proof.
  intros Hs. unfold gracefulShutdown, log.
  rewrite !run_effect_bind. unfold bind at 1. unfold read at 1.
  unfold bind at 1. unfold JsMap.entries. rewrite stop_loop_spec.
  unfold bind at 1, read at 1. fields.
  rewrite Hs. unfold bind, throw.
  same_world.
Qed.

Lemma stop_spec w :
  stop w =
  match server w with
  | Some l =>
      (Ok tt,
       with_server (fun _ =>
         Some {| port := port l; on_listening := on_listening l; closing := true;
                 on_close := on_close l ++ [StopCloseCallback] |})
         (emit ServerClose w))
  | None => (Ok tt, w)
  end.
Proof. unfold stop, bind, read. now destruct (server w). Qed.

Section StartSpec.
Variable E : Env.

Lemma start_refused port w :
  port_guard port = true ->
  start E port w =
  (Throw (Error [Txt "Invalid port number: "; Interp port]),
   emit (Logged ERROR [Txt "Failed to start server:"]
           (Some (Error [Txt "Invalid port number: "; Interp port]))) w).
Proof.
  intros H. unfold start, try_catch. rewrite H. reflexivity.
Qed.

Lemma start_listen_refused port w :
  port_guard port = false ->
  listen_rejects E port = true ->
  start E port w =
  (Throw (Thrown "node:net"),
   with_trace (fun _ =>
     trace w ++
     [ Logged DEBUG [Txt "Starting server on port "; Interp port; Txt "..."] None;
       Logged DEBUG [Txt "Current agents count: ";
                     Interp (Js.of_nat (JsMap.size (agents w)))] None;
       Logged DEBUG [Txt "Environment: ";
                     Interp match NODE_ENV E with
                            | Some v => Js.Str v
                            | None => Js.Undefined
                            end] None;
       Listen port;
       Logged ERROR [Txt "Failed to start server:"] (Some (Thrown "node:net")) ]) w).
Proof.
  intros Hg Hl. unfold start, try_catch. rewrite Hg.
  unfold app_listen, log, log_error, bind, effect, read, throw. rewrite Hl.
  same_world.
Qed.

Lemma start_accepted port w :
  port_guard port = false ->
  listen_rejects E port = false ->
  start E port w =
  (Ok tt,
   {| app := app w; agents := agents w;
      server := Some {| port := port; on_listening := [ListeningCallback port];
                        closing := false; on_close := [] |};
      handlers := handlers w ++ [SIGTERM; SIGINT];
      timers := timers w; clock := clock w; exited := exited w;
      trace :=
        trace w ++
        [ Logged DEBUG [Txt "Starting server on port "; Interp port; Txt "..."] None;
          Logged DEBUG [Txt "Current agents count: ";
                        Interp (Js.of_nat (JsMap.size (agents w)))] None;
          Logged DEBUG [Txt "Environment: ";
                        Interp match NODE_ENV E with
                               | Some v => Js.Str v
                               | None => Js.Undefined
                               end] None;
          Listen port;
          ProcessOn SIGTERM;
          ProcessOn SIGINT;
          Logged DEBUG [Txt "Shutdown handlers registered"] None ] |}).
Proof.
  intros Hg Hl. unfold start, try_catch. rewrite Hg.
  unfold app_listen, process_on, log, log_error, bind, effect, read, ret.
  rewrite Hl.
  same_world.
Qed.

(** The guard lets through exactly the numbers other than [0] and [NaN]. *)
Lemma port_guard_false port :
  port_guard port = false <->
  exists n, port = Js.Number n /\ Js.truthy (Js.Number n) = true.
Proof.
  unfold port_guard. split.
  - destruct port as [| |b|n|s]; cbn; try (destruct b); try discriminate.
    + intros H. exists n. split; [reflexivity|].
      apply orb_false_elim in H. destruct H as [H _].
      now apply negb_false_iff in H.
    + rewrite orb_true_r. discriminate.
  - intros (n & -> & H). cbn [Js.typeof]. rewrite H. reflexivity.
Qed.

End StartSpec.

(** ** What each side leaves alone *)

Lemma gracefulShutdown_registry : keeps (unchanged registry_view) gracefulShutdown.
Proof. unfold gracefulShutdown. frame. Qed.

Lemma stop_registry : keeps (unchanged registry_view) stop.
Proof. unfold stop. frame. Qed.

Lemma start_registry E port : keeps (unchanged registry_view) (start E port).
Proof. unfold start. frame. Qed.

Lemma invoke_registry cb : keeps (unchanged registry_view) (invoke cb).
Proof. destruct cb; unfold invoke; frame. Qed.

Lemma listening_lifecycle p :
  keeps (unchanged lifecycle_view) (invoke (ListeningCallback p)).
Proof. unfold invoke. frame. Qed.

Lemma registry_view_agents w w' :
  unchanged registry_view w w' -> agents w' = agents w.
Proof. unfold unchanged, registry_view. congruence. Qed.

Lemma registry_view_app w w' :
  unchanged registry_view w w' -> app w' = app w.
Proof. unfold unchanged, registry_view. congruence. Qed.

Lemma agents_try_catch {A} (m : M A) h w :
  (forall e, keeps (unchanged agents) (h e)) ->
  agents (run (try_catch m h) w) = agents (run m w).
Proof.
  intros Hh. rewrite run_try_catch. destruct (result m w); [reflexivity|apply Hh].
Qed.

Section RegistryContents.
Variable E : Env.

Lemma register_tee_agents rt : keeps (unchanged agents) (register_tee rt).
Proof. unfold register_tee. frame. Qed.

Lemma mount_route_agents rt r : keeps (unchanged agents) (mount_route E rt r).
Proof. unfold mount_route, route_switch. frame. Qed.

(** The registry after [registerAgent], however the call ends. *)
Lemma registerAgent_agents rt w :
  agents (run (registerAgent E rt) w) =
  match rt with
  | Some r =>
      if valid_runtime r
      then JsMap.set (Runtime.agentId r) r (agents w)
      else agents w
  | None => agents w
  end.
Proof.
  unfold registerAgent. rewrite agents_try_catch by (intros e; frame).
  destruct rt as [r|]; [|reflexivity].
  unfold valid_runtime.
  destruct (Js.truthy (Js.Str (Runtime.agentId r))); [|reflexivity].
  destruct (Runtime.character r) as [c|]; [|reflexivity].
  cbn [negb andb]. unfold log at 1. rewrite run_bind. cbn [result effect fst].
  rewrite run_bind. cbn [result effect fst].
  match goal with
  | |- agents (run ?m ?w0) = _ =>
      assert (H : keeps (unchanged agents) m)
        by (frame; [apply register_tee_agents|apply mount_route_agents]);
      rewrite (H w0)
  end.
  reflexivity.
Qed.

Lemma unregisterAgent_spec id w :
  unregisterAgent id w =
  if Js.truthy (Js.Str id) then
    (Ok tt,
     emit (Logged DEBUG [Txt ("Agent " ++ id ++ " removed from agents map")] None)
       (with_agents (JsMap.delete id) w))
  else
    (Ok tt,
     emit (Logged WARN
             [Txt "[AGENT UNREGISTER] Attempted to unregister undefined or invalid agent runtime"]
             None) w).
Proof. unfold unregisterAgent. now destruct (Js.truthy (Js.Str id)). Qed.

Lemma initializeServer_agents o : keeps (unchanged agents) (initializeServer E o).
Proof. unfold initializeServer, serve_plugin_assets, serve_dirs. frame. Qed.

End RegistryContents.

(** ** Every reachable world is consistent *)

Lemma consistent_new : consistent new_AgentServer.
Proof.
  split; cbn.
  - constructor.
  - now left.
  - constructor.
  - discriminate.
  - congruence.
Qed.

(** Consistency reads the registry, the listener, the handlers, the timers,
    the exit status and the exit calls, and nothing else. *)
Lemma consistent_same w w' :
  agents w' = agents w -> server w' = server w -> handlers w' = handlers w ->
  timers w' = timers w -> exited w' = exited w ->
  exit_calls (trace w') = exit_calls (trace w) ->
  consistent w -> consistent w'.
Proof.
  intros Ha Hs Hh Ht He Hx [C1 C2 C3 C4 C5].
  split; rewrite ?Ha, ?Hs, ?Hh, ?Ht, ?He, ?Hx; assumption.
Qed.

Lemma consistent_views w w' :
  unchanged lifecycle_view w w' -> agents w' = agents w ->
  consistent w -> consistent w'.
Proof.
  unfold unchanged, lifecycle_view. intros Hv Ha.
  inversion Hv as [[Hs Hh Ht Hc He Hx Hp Hcl Hl]].
  now apply consistent_same.
Qed.

Lemma alive_no_exit w : consistent w -> alive w = true -> exit_calls (trace w) = [].
Proof.
  intros C Ha. destruct (exit_once w C) as [H|(c & _ & H)]; [assumption|].
  unfold alive in Ha. now rewrite H in Ha.
Qed.

(** The process ends otherwise than through [process.exit]. *)
Lemma consistent_ended w e c :
  exit_calls [e] = [] ->
  consistent w -> alive w = true ->
  consistent (with_exited (fun _ => Some c) (emit e w)).
Proof.
  intros He C Ha. pose proof (alive_no_exit w C Ha) as Hx.
  destruct C as [C1 C2 C3 C4 C5].
  split; cbn; try assumption.
  left. now rewrite exit_calls_app, Hx, He.
Qed.

(** The process ends through [process.exit]. *)
Lemma consistent_exit w c :
  consistent w -> alive w = true ->
  consistent (run (process_exit c) w).
Proof.
  intros C Ha. pose proof (alive_no_exit w C Ha) as Hx.
  destruct C as [C1 C2 C3 C4 C5].
  split; cbn; try assumption.
  right. exists c. now rewrite exit_calls_app, Hx.
Qed.

Lemma consistent_logged w l msg err :
  consistent w -> consistent (emit (Logged l msg err) w).
Proof.
  apply consistent_views; [view_leaf|reflexivity].
Qed.

Lemma fire_consistent cb w : consistent w -> consistent (fire cb w).
Proof.
  intros C. unfold fire. destruct (alive w) eqn:Ha; [|assumption].
  destruct cb as [p| | |].
  - pose proof (listening_lifecycle p w) as Hl.
    pose proof (registry_view_agents _ _ (invoke_registry (ListeningCallback p) w)) as Hr.
    unfold run in Hl, Hr.
    destruct (invoke (ListeningCallback p) w) as [[[]|e] w']; cbn [snd] in Hl, Hr.
    + eapply consistent_views; eassumption.
    + apply consistent_ended; [reflexivity|eapply consistent_views; eassumption|].
      unfold alive, unchanged, lifecycle_view in *. injection Hl as _ _ _ _ He _ _ _ _.
      now rewrite He.
  - apply (consistent_exit _ 0%Z); [now apply consistent_logged|exact Ha].
  - apply (consistent_exit _ 1%Z); [now apply consistent_logged|exact Ha].
  - now apply consistent_logged.
Qed.

Lemma fire_all_consistent cbs w : consistent w -> consistent (fire_all cbs w).
Proof.
  revert w. induction cbs as [|cb cbs IH]; intros w C; [exact C|].
  apply IH, fire_consistent, C.
Qed.

Lemma on_signal_consistent w : consistent w -> consistent (on_signal w).
Proof.
  intros C. unfold on_signal. destruct (alive w); [|assumption].
  destruct (server w) as [l|] eqn:Hs.
  - rewrite (gracefulShutdown_spec w l Hs). unfold drained.
    destruct C as [C1 C2 C3 C4 C5]. split; fields.
    + assumption.
    + trace_calc. assumption.
    + apply Forall_app. split; [assumption|repeat constructor].
    + intros l' [= <-]. cbn. apply Forall_app. split; [now apply C4|repeat constructor].
    + discriminate.
  - rewrite (gracefulShutdown_no_server w Hs).
    eapply consistent_same; [..|exact C]; try reflexivity.
    now trace_calc.
Qed.

Lemma consistent_registry w w' :
  unchanged lifecycle_view w w' -> JsMap.wf (agents w') ->
  consistent w -> consistent w'.
Proof.
  unfold unchanged, lifecycle_view. intros Hv Ha [C1 C2 C3 C4 C5].
  inversion Hv as [[Hs Hh Ht Hc He Hx Hp Hcl Hl]].
  split; rewrite ?Hs, ?Hh, ?Ht, ?He, ?Hx; assumption.
Qed.

Lemma consistent_listener w l :
  Forall (fun cb => is_close_listener cb = true) (on_close l) ->
  consistent w -> consistent (with_server (fun _ => Some l) w).
Proof.
  intros Hl [C1 C2 C3 C4 C5]. split; cbn; try assumption.
  - now intros l' [= <-].
  - discriminate.
Qed.

Lemma deliver_consistent s w :
  consistent w -> alive w = true -> consistent (deliver s w).
Proof.
  intros C Ha. unfold deliver.
  destruct (filter (signal_eqb s) (handlers w)) as [|h hs].
  - now apply consistent_ended.
  - generalize (h :: hs). intros listeners. clear Ha. revert w C.
    induction listeners as [|x listeners IH]; intros w C; [exact C|].
    cbn. apply IH, on_signal_consistent, C.
Qed.

Lemma emit_listening_consistent w : consistent w -> consistent (emit_listening w).
Proof.
  intros C. unfold emit_listening. destruct (server w) as [l|] eqn:Hs; [|exact C].
  apply fire_all_consistent, consistent_listener; [|exact C].
  cbn. now apply (close_listeners w C).
Qed.

Lemma emit_close_consistent w : consistent w -> consistent (emit_close w).
Proof.
  intros C. unfold emit_close. destruct (server w) as [l|] eqn:Hs; [|exact C].
  destruct (closing l); [|exact C].
  apply fire_all_consistent, consistent_listener; [constructor|exact C].
Qed.

Lemma elapse_consistent ms w : consistent w -> consistent (elapse ms w).
Proof.
  intros C. unfold elapse. apply fire_all_consistent.
  destruct C as [C1 C2 C3 C4 C5]. split; cbn; try assumption.
  apply Forall_forall. intros t Ht. apply filter_In in Ht.
  now apply (proj1 (Forall_forall _ _) C3).
Qed.

Section Reachable.
Variable E : Env.

Lemma start_consistent port w : consistent w -> consistent (run (start E port) w).
Proof.
  intros C. unfold run.
  destruct (port_guard port) eqn:Hg.
  - rewrite start_refused by assumption. now apply consistent_logged.
  - destruct (listen_rejects E port) eqn:Hl.
    + rewrite start_listen_refused by assumption. cbn [snd].
      eapply consistent_same; [..|exact C]; try reflexivity.
      cbn. now autorewrite with trace.
    + rewrite start_accepted by assumption. cbn [snd].
      destruct C as [C1 C2 C3 C4 C5]. split; cbn; try assumption.
      * now autorewrite with trace.
      * intros l [= <-]. constructor.
      * discriminate.
Qed.

Lemma stop_consistent w : consistent w -> consistent (run stop w).
Proof.
  intros C. unfold run. rewrite stop_spec.
  destruct (server w) as [l|] eqn:Hs; [|exact C]. cbn [snd].
  apply consistent_listener.
  - cbn. apply Forall_app. split; [now apply (close_listeners w C)|repeat constructor].
  - eapply consistent_same; [..|exact C]; try reflexivity.
    cbn. now autorewrite with trace.
Qed.

Lemma registerAgent_consistent rt w :
  consistent w -> consistent (run (registerAgent E rt) w).
Proof.
  intros C. eapply consistent_registry; [apply registerAgent_lifecycle| |exact C].
  rewrite registerAgent_agents. pose proof (registry_wf w C) as Hw.
  destruct rt as [r|]; [|exact Hw].
  destruct (valid_runtime r); [now apply JsMapFacts.set_wf|exact Hw].
Qed.

Lemma unregisterAgent_consistent id w :
  consistent w -> consistent (run (unregisterAgent id) w).
Proof.
  intros C. eapply consistent_registry; [apply unregisterAgent_lifecycle| |exact C].
  unfold run. rewrite unregisterAgent_spec. pose proof (registry_wf w C) as Hw.
  destruct (Js.truthy (Js.Str id)); cbn; [now apply JsMapFacts.delete_wf|exact Hw].
Qed.

Lemma database_ready_consistent o w :
  consistent w -> consistent (database_ready E o w).
Proof.
  intros C. unfold database_ready.
  set (m := (log SUCCESS [Txt "Database initialized successfully"] ;;
             initializeServer E o)).
  assert (Hl : keeps (unchanged lifecycle_view) m)
    by (subst m; frame; apply initializeServer_lifecycle).
  assert (Ha : keeps (unchanged agents) m)
    by (subst m; frame; apply initializeServer_agents).
  specialize (Hl w). specialize (Ha w). unfold run in Hl, Ha.
  destruct (m w) as [[[]|e] w']; cbn [snd] in Hl, Ha.
  - eapply consistent_views; eassumption.
  - eapply consistent_same; [..|eapply consistent_views; eassumption];
      try reflexivity.
    cbn. now autorewrite with trace.
Qed.

Lemma step_consistent w a : consistent w -> consistent (step E w a).
Proof.
  intros C. unfold step. destruct (alive w) eqn:Ha; [|exact C].
  destruct a.
  - now apply registerAgent_consistent.
  - now apply unregisterAgent_consistent.
  - eapply consistent_views; [apply registerMiddleware_lifecycle| |exact C].
    reflexivity.
  - now apply start_consistent.
  - now apply stop_consistent.
  - now apply database_ready_consistent.
  - now apply deliver_consistent.
  - now apply emit_listening_consistent.
  - now apply emit_close_consistent.
  - now apply elapse_consistent.
Qed.

Lemma exec_consistent_from w acts : consistent w -> consistent (exec E w acts).
Proof.
  revert w. induction acts as [|a acts IH]; intros w C; [exact C|].
  cbn. apply IH, step_consistent, C.
Qed.

Lemma exec_consistent acts : consistent (exec E new_AgentServer acts).
Proof. apply exec_consistent_from, consistent_new. Qed.

End Reachable.

(** * The claims *)

(** ** The port guard of [start] *)

(** C2, as the specification states it, fails at [-1]: the argument is not a
    positive integer, yet the guard of line 465 lets it through, [listen] is
    called with it, and the error that comes back is the one node raised, not
    the [Invalid port number] error of [start]. *)
Lemma start_minus_one_reaches_listen :
  Js.positive_integer (Js.of_Z (-1)) = false /\
  port_guard (Js.of_Z (-1)) = false /\
  result (start Sample.env (Js.of_Z (-1))) new_AgentServer = Throw (Thrown "node:net") /\
  listen_calls (trace (run (start Sample.env (Js.of_Z (-1))) new_AgentServer))
  = [Js.of_Z (-1)].
Proof. repeat (split; [vm_compute; reflexivity|]). vm_compute. reflexivity. Qed.

(** C2, amended: [start] throws [Invalid port number] itself, before any call
    of [listen], exactly when its argument is falsy or not of type number (so
    for [undefined] and [0], but not for [-1]); every other argument is handed
    to [listen]; when [listen] accepts it the listener is stored in
    [this.server] and the two shutdown handlers are registered, and when
    [listen] throws, [start] throws that error and stores nothing. *)
Theorem start_guard_decides (E : Env) (port : Js.value) (w : world) :
  (port_guard port = false <->
   exists n, port = Js.Number n /\ Js.truthy (Js.Number n) = true) /\
  port_guard Js.Undefined = true /\
  port_guard (Js.of_Z 0) = true /\
  port_guard (Js.of_Z (-1)) = false /\
  if port_guard port then
    result (start E port) w = Throw (Error [Txt "Invalid port number: "; Interp port]) /\
    listen_calls (trace (run (start E port) w)) = listen_calls (trace w) /\
    server (run (start E port) w) = server w /\
    handlers (run (start E port) w) = handlers w
  else
    listen_calls (trace (run (start E port) w)) = listen_calls (trace w) ++ [port] /\
    if listen_rejects E port then
      result (start E port) w = Throw (Thrown "node:net") /\
      server (run (start E port) w) = server w /\
      handlers (run (start E port) w) = handlers w
    else
      result (start E port) w = Ok tt /\
      server (run (start E port) w)
      = Some {| port := port; on_listening := [ListeningCallback port];
                closing := false; on_close := [] |} /\
      handlers (run (start E port) w) = handlers w ++ [SIGTERM; SIGINT].
Proof.
  split; [apply port_guard_false|]. do 3 (split; [reflexivity|]).
  unfold run, result.
  destruct (port_guard port) eqn:Hg.
  - rewrite start_refused by assumption. cbn. now autorewrite with trace.
  - destruct (listen_rejects E port) eqn:Hl.
    + rewrite start_listen_refused by assumption. cbn.
      autorewrite with trace. cbn. auto.
    + rewrite start_accepted by assumption. cbn.
      autorewrite with trace. cbn. auto.
Qed.

(** ** STATIC and GET *)

(** C9: a route descriptor bound under [STATIC] and the same descriptor bound
    under [GET] go through the [switch] to the same effect: the same outcome
    and the same world, the application included.  When express accepts the
    path, what both add to the application is the simple GET binding of the
    specification, wrapping the descriptor's handler with the owning agent, and
    the loop body around the [switch] leaves the same application in both
    cases. *)
Theorem static_binds_as_get (E : Env) (runtime : Runtime.t) (route : Route.t) (w : world) :
  route_switch E runtime (retyped "STATIC" route) w
  = route_switch E runtime (retyped "GET" route) w /\
  result (mount_route E runtime (retyped "STATIC" route)) w
  = result (mount_route E runtime (retyped "GET" route)) w /\
  app (run (mount_route E runtime (retyped "STATIC" route)) w)
  = app (run (mount_route E runtime (retyped "GET" route)) w) /\
  app (run (mount_route E runtime (retyped "STATIC" route)) w)
  = if express_rejects E GET (Route.path route)
    then app w
    else app w ++ [spec_get_binding runtime route].
Proof.
  split; [reflexivity|].
  unfold run, result, mount_route, try_catch, bind, route_switch, app_method.
  cbn [retyped Route.type Route.path Route.handler String.eqb Ascii.eqb Bool.eqb].
  destruct (express_rejects E GET (Route.path route)); repeat split.
Qed.

(** ** The registry under [registerAgent] and [unregisterAgent] *)

(** C7: [unregisterAgent] with the empty identifier only logs a warning; with
    any other identifier it returns normally, the identifier is no longer in
    the registry, every other identifier maps to what it mapped to before, and
    the application (every route binding and every static mount), the
    listener, the handlers, the timers and the exit status are what they
    were. *)
Theorem unregister_removes_only_the_agent (w : world) (id : UUID) :
  JsMap.wf (agents w) ->
  (id = "" ->
   unregisterAgent id w =
   (Ok tt,
    emit (Logged WARN
            [Txt "[AGENT UNREGISTER] Attempted to unregister undefined or invalid agent runtime"]
            None) w)) /\
  (id <> "" ->
   result (unregisterAgent id) w = Ok tt /\
   JsMap.get id (agents (run (unregisterAgent id) w)) = None /\
   (forall k, k <> id ->
      JsMap.get k (agents (run (unregisterAgent id) w)) = JsMap.get k (agents w)) /\
   app (run (unregisterAgent id) w) = app w /\
   bindings (app (run (unregisterAgent id) w)) = bindings (app w) /\
   static_mounts (app (run (unregisterAgent id) w)) = static_mounts (app w) /\
   lifecycle_view (run (unregisterAgent id) w) = lifecycle_view w).
Proof.
  intros Hwf. unfold run, result. rewrite unregisterAgent_spec. split.
  - intros ->. reflexivity.
  - intros Hne. cbn [Js.truthy].
    destruct (String.eqb_spec id "") as [->|_]; [congruence|].
    cbn [negb fst snd]. fields. repeat split.
    + now apply JsMapFacts.get_delete_same.
    + intros k Hk. now apply JsMapFacts.get_delete_other.
    + view_leaf.
Qed.

Lemma unregister_removes_only_the_agent_witness :
  JsMap.get "a1" (agents (run (unregisterAgent "a1") Sample.started)) = None /\
  app (run (unregisterAgent "a1") Sample.started) = app Sample.started.
Proof.
  assert (Hwf : JsMap.wf (agents Sample.started)).
  { unfold JsMap.wf. vm_compute. repeat constructor. simpl. tauto. }
  destruct (unregister_removes_only_the_agent Sample.started "a1" Hwf) as [_ H].
  destruct H as (_ & Hget & _ & Happ & _); [discriminate|].
  split; assumption.
Defined.

Section Registration.
Variable E : Env.

Lemma registerAgent_get rt w :
  valid_runtime rt = true ->
  JsMap.get (Runtime.agentId rt) (agents (run (registerAgent E (Some rt)) w)) = Some rt.
Proof.
  intros Hv. rewrite registerAgent_agents, Hv. apply JsMapFacts.get_set_same.
Qed.

Lemma registerAgent_once rt w :
  valid_runtime rt = true -> JsMap.wf (agents w) ->
  count_occ string_dec
    (JsMap.keys (agents (run (registerAgent E (Some rt)) w))) (Runtime.agentId rt) = 1.
Proof.
  intros Hv Hwf. rewrite registerAgent_agents, Hv.
  apply JsMapFacts.count_keys_wf.
  - now apply JsMapFacts.set_wf.
  - apply JsMapFacts.in_keys_set.
Qed.

End Registration.

(** C4: in every world the event loop can reach the identifiers of the
    registry are pairwise distinct; after [registerAgent] with a valid handle
    the handle's identifier is listed exactly once and maps to that handle;
    after a second [registerAgent] with another valid handle under the same
    identifier the identifier is still listed exactly once, the list of
    identifiers is the one before, and the identifier maps to the later
    handle. *)
Theorem register_then_list (E : Env) (acts : list action) (rt rt' : Runtime.t) :
  valid_runtime rt = true ->
  valid_runtime rt' = true ->
  Runtime.agentId rt' = Runtime.agentId rt ->
  let id := Runtime.agentId rt in
  let w := exec E new_AgentServer acts in
  let w1 := run (registerAgent E (Some rt)) w in
  let w2 := run (registerAgent E (Some rt')) w1 in
  NoDup (JsMap.keys (agents w)) /\
  count_occ string_dec (JsMap.keys (agents w1)) id = 1 /\
  JsMap.get id (agents w1) = Some rt /\
  NoDup (JsMap.keys (agents w1)) /\
  count_occ string_dec (JsMap.keys (agents w2)) id = 1 /\
  JsMap.get id (agents w2) = Some rt' /\
  JsMap.keys (agents w2) = JsMap.keys (agents w1) /\
  JsMap.size (agents w2) = JsMap.size (agents w1).
Proof.
  intros Hv Hv' Hid id w w1 w2.
  pose proof (exec_consistent E acts) as C. fold w in C.
  pose proof (registerAgent_consistent E (Some rt) w C) as C1. fold w1 in C1.
  assert (Hin : In id (JsMap.keys (agents w1))).
  { subst w1. rewrite registerAgent_agents, Hv. apply JsMapFacts.in_keys_set. }
  assert (Hk : JsMap.keys (agents w2) = JsMap.keys (agents w1)).
  { subst w2. rewrite registerAgent_agents, Hv', Hid.
    now apply JsMapFacts.keys_set_in. }
  repeat split.
  - exact (registry_wf w C).
  - apply registerAgent_once; [exact Hv|exact (registry_wf w C)].
  - now apply registerAgent_get.
  - exact (registry_wf w1 C1).
  - rewrite Hk. apply JsMapFacts.count_keys_wf; [exact (registry_wf w1 C1)|exact Hin].
  - subst id. rewrite <- Hid. now apply registerAgent_get.
  - exact Hk.
  - unfold JsMap.size. rewrite <- !(length_map fst).
    change (List.length (JsMap.keys (agents w2)) = List.length (JsMap.keys (agents w1))).
    now rewrite Hk.
Qed.

Lemma register_then_list_witness :
  count_occ string_dec
    (JsMap.keys (agents (run (registerAgent Sample.env (Some Sample.eliza2))
                           (run (registerAgent Sample.env (Some Sample.eliza))
                              (exec Sample.env new_AgentServer
                                 [CallRegisterAgent (Some Sample.faulty)])))))
    "a1" = 1 /\
  JsMap.get "a1"
    (agents (run (registerAgent Sample.env (Some Sample.eliza2))
               (run (registerAgent Sample.env (Some Sample.eliza))
                  (exec Sample.env new_AgentServer
                     [CallRegisterAgent (Some Sample.faulty)]))))
  = Some Sample.eliza2.
Proof.
  pose proof (register_then_list Sample.env [CallRegisterAgent (Some Sample.faulty)]
                Sample.eliza Sample.eliza2 eq_refl eq_refl eq_refl) as H.
  cbv zeta in H. destruct H as (_ & _ & _ & _ & Hc & Hg & _).
  split; [exact Hc|exact Hg].
Defined.

(** ** Mounting routes *)

Lemma throws_bind_l {A B} (m : M A) (k : A -> M B) : throws m -> throws (bind m k).
Proof.
  intros H w. destruct (H w) as [e He]. exists e. now rewrite result_bind, He.
Qed.

Lemma throws_bind_r {A B} (m : M A) (k : A -> M B) :
  (forall a, throws (k a)) -> throws (bind m k).
Proof.
  intros H w. rewrite result_bind. destruct (result m w) as [a|e]; [apply H|eauto].
Qed.

Lemma throws_rethrow {A} (m : M A) (h : error -> M unit) :
  throws m -> throws (try_catch m (fun e => bind (h e) (fun _ => throw e))).
Proof.
  intros H w. destruct (H w) as [e He]. rewrite result_try_catch, He, result_bind.
  destruct (result (h e) (run m w)); eexists; reflexivity.
Qed.

Lemma known_type_cases t :
  known_type t = true ->
  t = "STATIC" \/ t = "GET" \/ t = "POST" \/ t = "PUT" \/ t = "DELETE".
Proof.
  unfold known_type. rewrite !orb_true_iff, !String.eqb_eq. tauto.
Qed.

Lemma unknown_type_cases t :
  known_type t = false ->
  (t =? "STATIC") = false /\ (t =? "GET") = false /\ (t =? "POST") = false /\
  (t =? "PUT") = false /\ (t =? "DELETE") = false.
Proof.
  unfold known_type. rewrite !orb_false_iff. tauto.
Qed.

Section Mounting.
Variable E : Env.
Variable runtime : Runtime.t.

(** The [switch] on a known classifier is one call of the express method. *)
Lemma route_switch_known route :
  known_type (Route.type route) = true ->
  route_switch E runtime route =
  (app_method E (verb_of (Route.type route)) (Route.path route) (wrap route runtime) ;;
   ret Normal).
Proof.
  intros H. apply known_type_cases in H. unfold route_switch.
  destruct H as [H|[H|[H|[H|H]]]]; rewrite H; reflexivity.
Qed.

Lemma mount_route_accepted route w :
  known_type (Route.type route) = true ->
  express_rejects E (verb_of (Route.type route)) (Route.path route) = false ->
  mount_route E runtime route w =
  (Ok tt, emit (mount_event route) (with_app (fun a => a ++ [binding_of runtime route]) w)).
Proof.
  intros Hk Ha. unfold mount_route, mount_event. rewrite route_switch_known, Hk by exact Hk.
  unfold try_catch, bind, app_method. rewrite Ha. reflexivity.
Qed.

Lemma mount_route_rejected route :
  known_type (Route.type route) = true ->
  express_rejects E (verb_of (Route.type route)) (Route.path route) = true ->
  throws (mount_route E runtime route).
Proof.
  intros Hk Hr w. exists (Thrown "express").
  unfold result, mount_route. rewrite route_switch_known by exact Hk.
  unfold try_catch, bind, app_method. rewrite Hr. reflexivity.
Qed.

Lemma mount_route_unknown route w :
  known_type (Route.type route) = false ->
  mount_route E runtime route w = (Ok tt, emit (mount_event route) w).
Proof.
  intros Hk. unfold mount_event. rewrite Hk.
  apply unknown_type_cases in Hk. destruct Hk as (H1 & H2 & H3 & H4 & H5).
  unfold mount_route, route_switch, unknown_route_message.
  rewrite H1, H2, H3, H4, H5. reflexivity.
Qed.

(** The loop throws as soon as express refuses one route. *)
Lemma mount_loop_throws routes route :
  In route routes ->
  known_type (Route.type route) = true ->
  express_rejects E (verb_of (Route.type route)) (Route.path route) = true ->
  throws (for_of routes (mount_route E runtime)).
Proof.
  intros Hin Hk Hr. induction routes as [|x routes IH]; [destruct Hin|].
  cbn [for_of]. destruct Hin as [->|Hin].
  - apply throws_bind_l. now apply mount_route_rejected.
  - apply throws_bind_r. intros _. now apply IH.
Qed.

(** The loop when express refuses none of the routes it is asked for. *)
Lemma mount_loop_accepted routes w :
  (forall r, In r routes -> known_type (Route.type r) = true ->
     express_rejects E (verb_of (Route.type r)) (Route.path r) = false) ->
  for_of routes (mount_route E runtime) w =
  (Ok tt,
   with_trace (fun _ => trace w ++ map mount_event routes)
     (with_app (fun _ =>
        app w ++ map (binding_of runtime)
                   (filter (fun r => known_type (Route.type r)) routes)) w)).
Proof.
  revert w. induction routes as [|x routes IH]; intros w Hacc.
  - cbn [for_of map filter]. unfold ret. same_world; now rewrite app_nil_r.
  - cbn [for_of map filter]. unfold bind.
    destruct (known_type (Route.type x)) eqn:Hk.
    + rewrite mount_route_accepted by (try apply Hacc; simpl; auto).
      rewrite IH by (intros; apply Hacc; simpl; auto).
      same_world.
    + rewrite mount_route_unknown by exact Hk.
      rewrite IH by (intros; apply Hacc; simpl; auto).
      same_world.
Qed.

End Mounting.

Lemma for_of_returns {A} (l : list A) (body : A -> M unit) :
  (forall x w, result (body x) w = Ok tt) ->
  forall w, result (for_of l body) w = Ok tt.
Proof.
  intros Hb. induction l as [|x l IH]; intros w; [reflexivity|].
  cbn [for_of]. now rewrite result_bind, Hb, IH.
Qed.

Lemma register_tee_returns rt w :
  tee_ready rt = true -> result (register_tee rt) w = Ok tt.
Proof.
  unfold tee_ready, register_tee.
  destruct (find _ (Runtime.plugins rt)) as [p|]; [|reflexivity].
  destruct (Plugin.providers p) as [ps|]; [|discriminate].
  destruct (Plugin.actions p) as [acs|]; [|discriminate]. intros _.
  unfold log. rewrite result_bind. cbn [result effect fst].
  rewrite result_bind, for_of_returns by reflexivity.
  now rewrite for_of_returns.
Qed.

Lemma register_tee_app rt : keeps (unchanged app) (register_tee rt).
Proof. unfold register_tee. frame. Qed.

Lemma register_tee_errors rt :
  keeps (unchanged (fun w => logged ERROR (trace w))) (register_tee rt).
Proof. unfold register_tee. frame. Qed.

Lemma valid_runtime_inv r :
  valid_runtime r = true ->
  Js.truthy (Js.Str (Runtime.agentId r)) = true /\
  exists c, Runtime.character r = Some c.
Proof.
  unfold valid_runtime. intros H. apply andb_true_iff in H. destruct H as [H1 H2].
  split; [exact H1|]. destruct (Runtime.character r); [eauto|discriminate].
Qed.

Lemma unknown_route_logged routes bad :
  In bad routes -> known_type (Route.type bad) = false ->
  In (unknown_route_message bad) (logged ERROR (map mount_event routes)).
Proof.
  intros Hin Hk. induction routes as [|x routes IH]; [destruct Hin|].
  change (map mount_event (x :: routes)) with ([mount_event x] ++ map mount_event routes).
  rewrite logged_app. apply in_or_app. destruct Hin as [->|Hin]; [left|right; auto].
  unfold mount_event. rewrite Hk. simpl. auto.
Qed.

(** C10: when express refuses one of the routes of a valid handle,
    [registerAgent] throws, and the registry it leaves behind lists the
    handle's identifier and maps it to the handle: the insertion of line 349
    is not undone. *)
Theorem failed_registration_keeps_the_agent
    (E : Env) (w : world) (rt : Runtime.t) (route : Route.t) :
  valid_runtime rt = true ->
  In route (Runtime.routes rt) ->
  known_type (Route.type route) = true ->
  express_rejects E (verb_of (Route.type route)) (Route.path route) = true ->
  (exists e, result (registerAgent E (Some rt)) w = Throw e) /\
  JsMap.get (Runtime.agentId rt) (agents (run (registerAgent E (Some rt)) w)) = Some rt /\
  In (Runtime.agentId rt) (JsMap.keys (agents (run (registerAgent E (Some rt)) w))).
Proof.
  intros Hv Hin Hk Hr. split; [|split].
  - revert w. change (throws (registerAgent E (Some rt))).
    destruct (valid_runtime_inv rt Hv) as (Hid & c & Hc).
    unfold registerAgent. rewrite Hid, Hc. cbn [negb].
    apply (throws_rethrow _ (log_error [Txt "Failed to register agent:"])).
    do 6 (apply throws_bind_r; intros ?).
    apply throws_bind_l. eapply mount_loop_throws; eassumption.
  - now apply registerAgent_get.
  - rewrite registerAgent_agents, Hv. apply JsMapFacts.in_keys_set.
Qed.

Lemma failed_registration_keeps_the_agent_witness :
  (exists e, result (registerAgent Sample.env (Some Sample.faulty)) new_AgentServer = Throw e) /\
  JsMap.keys (agents (run (registerAgent Sample.env (Some Sample.faulty)) new_AgentServer))
  = ["a2"].
Proof.
  destruct (failed_registration_keeps_the_agent Sample.env new_AgentServer
              Sample.faulty Sample.broken eq_refl
              (or_intror (or_introl eq_refl)) eq_refl eq_refl) as (Ht & _ & _).
  split; [exact Ht|vm_compute; reflexivity].
Defined.

(** [registerAgent] when nothing on its way throws. *)
Lemma registerAgent_accepted (E : Env) (w : world) (rt : Runtime.t) :
  valid_runtime rt = true ->
  tee_ready rt = true ->
  (forall r, In r (Runtime.routes rt) -> known_type (Route.type r) = true ->
     express_rejects E (verb_of (Route.type r)) (Route.path r) = false) ->
  exists before after w',
    registerAgent E (Some rt) w = (Ok tt, w') /\
    app w' = app w ++ map (binding_of rt)
                        (filter (fun r => known_type (Route.type r)) (Runtime.routes rt)) /\
    trace w' = before ++ map mount_event (Runtime.routes rt) ++ after.
Proof.
  intros Hv Ht Hacc.
  destruct (valid_runtime_inv rt Hv) as (Hid & c & Hc).
  unfold registerAgent, try_catch. rewrite Hid, Hc. cbn [negb].
  unfold log. rewrite !run_effect_bind. unfold bind at 1.
  match goal with |- context [register_tee rt ?w0] => set (w3 := w0) end.
  pose proof (register_tee_returns rt w3 Ht) as Hres.
  pose proof (register_tee_app rt w3) as Happ.
  unfold result, run, unchanged in Hres, Happ.
  destruct (register_tee rt w3) as [o wt]. cbn [fst snd] in Hres, Happ.
  subst o. rewrite !run_effect_bind. unfold bind at 1.
  rewrite mount_loop_accepted by exact Hacc.
  unfold effect. do 3 eexists. split; [reflexivity|]. fields.
  rewrite Happ. subst w3. fields. split; [reflexivity|].
  symmetry. apply app_assoc.
Qed.

(** Mounting one route of a known classifier reads and writes the
    application only. *)
Lemma mount_route_known_app (E : Env) (rt : Runtime.t) (route : Route.t) (w w' : world) :
  known_type (Route.type route) = true ->
  app w = app w' ->
  result (mount_route E rt route) w = result (mount_route E rt route) w' /\
  app (run (mount_route E rt route) w) = app (run (mount_route E rt route) w').
Proof.
  intros Hk Happ. unfold result, run.
  destruct (express_rejects E (verb_of (Route.type route)) (Route.path route)) eqn:Hr.
  - unfold mount_route. rewrite route_switch_known by exact Hk.
    unfold try_catch, bind, app_method. rewrite Hr. cbn. auto.
  - rewrite !mount_route_accepted by assumption. cbn [fst snd]. fields.
    now rewrite Happ.
Qed.

(** Taking the routes of unknown classifier out of the list changes neither
    how the loop ends nor the application it leaves. *)
Lemma mount_loop_skips_unknown (E : Env) (rt : Runtime.t) (routes : list Route.t) :
  forall w w', app w = app w' ->
  result (for_of routes (mount_route E rt)) w
  = result (for_of (filter (fun r => known_type (Route.type r)) routes)
              (mount_route E rt)) w' /\
  app (run (for_of routes (mount_route E rt)) w)
  = app (run (for_of (filter (fun r => known_type (Route.type r)) routes)
                (mount_route E rt)) w').
Proof.
  induction routes as [|x routes IH]; intros w w' Happ.
  - cbn. auto.
  - cbn [filter]. destruct (known_type (Route.type x)) eqn:Hk.
    + cbn [for_of]. rewrite !result_bind, !run_bind.
      destruct (mount_route_known_app E rt x w w' Hk Happ) as [Hr Ha].
      rewrite <- Hr. destruct (result (mount_route E rt x) w); [|auto].
      apply IH. exact Ha.
    + cbn [for_of]. rewrite result_bind, run_bind.
      assert (Hres : result (mount_route E rt x) w = Ok tt)
        by (unfold result; now rewrite mount_route_unknown).
      assert (Hrun : run (mount_route E rt x) w = emit (mount_event x) w)
        by (unfold run; now rewrite mount_route_unknown).
      rewrite Hres, Hrun. apply IH. exact Happ.
Qed.

(** C5: a route whose classifier is not one of the five is logged at error
    level with its [Unknown route type] message and adds nothing to the
    application, and the loop goes on: the loop over a route list ends as it
    ends over the list without its routes of unknown classifier, and leaves
    the same application.  So for a valid handle whose TEE plugin, if it has
    one, is complete, and whose routes of known classifier express accepts,
    [registerAgent] returns normally whatever other classifiers the list
    holds; the bindings it adds are those of the routes of known classifier,
    all of them and in their order; and every route of unknown classifier has
    its message in the error log. *)
Theorem unknown_route_type_is_skipped (E : Env) (w : world) (rt : Runtime.t) :
  (forall bad, known_type (Route.type bad) = false ->
     mount_route E rt bad w
     = (Ok tt, emit (Logged ERROR (unknown_route_message bad) None) w)) /\
  (forall routes,
     result (for_of routes (mount_route E rt)) w
     = result (for_of (filter (fun r => known_type (Route.type r)) routes)
                 (mount_route E rt)) w /\
     app (run (for_of routes (mount_route E rt)) w)
     = app (run (for_of (filter (fun r => known_type (Route.type r)) routes)
                   (mount_route E rt)) w)) /\
  (valid_runtime rt = true ->
   tee_ready rt = true ->
   (forall r, In r (Runtime.routes rt) -> known_type (Route.type r) = true ->
      express_rejects E (verb_of (Route.type r)) (Route.path r) = false) ->
   result (registerAgent E (Some rt)) w = Ok tt /\
   app (run (registerAgent E (Some rt)) w)
   = app w ++ map (binding_of rt)
                (filter (fun r => known_type (Route.type r)) (Runtime.routes rt)) /\
   forall bad, In bad (Runtime.routes rt) -> known_type (Route.type bad) = false ->
     In (unknown_route_message bad)
        (logged ERROR (trace (run (registerAgent E (Some rt)) w)))).
Proof.
  split; [|split].
  - intros bad Hk. rewrite mount_route_unknown by exact Hk.
    unfold mount_event. now rewrite Hk.
  - intros routes. now apply mount_loop_skips_unknown.
  - intros Hv Ht Hacc.
    destruct (registerAgent_accepted E w rt Hv Ht Hacc)
      as (t0 & t1 & w' & Hreg & Happ & Htr).
    unfold run, result. rewrite Hreg. cbn [fst snd]. repeat split; [exact Happ|].
    intros bad Hin Hk. rewrite Htr, !logged_app. apply in_or_app. right.
    apply in_or_app. left. now apply unknown_route_logged.
Qed.

Lemma unknown_route_type_is_skipped_witness :
  result (registerAgent Sample.env (Some Sample.eliza)) new_AgentServer = Ok tt /\
  app (run (registerAgent Sample.env (Some Sample.eliza)) new_AgentServer)
  = [binding_of Sample.eliza Sample.portal; binding_of Sample.eliza Sample.submit] /\
  In (unknown_route_message Sample.patch)
     (logged ERROR (trace (run (registerAgent Sample.env (Some Sample.eliza)) new_AgentServer))).
Proof.
  assert (Hacc : forall r, In r (Runtime.routes Sample.eliza) ->
            known_type (Route.type r) = true ->
            express_rejects Sample.env (verb_of (Route.type r)) (Route.path r) = false).
  { intros r [<-|[<-|[<-|[]]]] _; reflexivity. }
  destruct (unknown_route_type_is_skipped Sample.env new_AgentServer Sample.eliza)
    as (_ & _ & H).
  destruct (H eq_refl eq_refl Hacc) as (Hr & Ha & Hl).
  split; [exact Hr|]. split; [exact Ha|].
  apply Hl; [simpl; auto|reflexivity].
Defined.

(** ** The asset resolver *)

(** C6, as the specification states it, fails for a GET route whose path is
    the bare wildcard: the route qualifies, its trimmed base path is empty,
    and the guard of line 290 appends no candidate for it, where the
    specification's list has [/dist] mounted at [/]. *)
Lemma bare_wildcard_appends_no_candidate :
  is_static_route Sample.catch_all = true /\
  basePath_of Sample.catch_all = "" /\
  candidate_dirs Sample.catch_all_plugin = commonDirs /\
  spec_candidate_dirs Sample.catch_all_plugin
  = commonDirs ++ [ {| Dir.path := "/dist"; Dir.mount := "/" |} ] /\
  candidate_dirs Sample.catch_all_plugin <> spec_candidate_dirs Sample.catch_all_plugin.
Proof.
  repeat (split; [vm_compute; reflexivity|]). vm_compute. discriminate.
Qed.

Lemma push_candidates routes dirs :
  fold_left
    (fun dirs route =>
       let basePath := basePath_of route in
       if Js.truthy (Js.Str basePath)
       then dirs ++ [ {| Dir.path := basePath ++ "/dist"; Dir.mount := "/" ++ basePath |} ]
       else dirs)
    routes dirs
  = dirs ++ map route_candidate
              (filter (fun r => Js.truthy (Js.Str (basePath_of r))) routes).
Proof.
  revert dirs. induction routes as [|r routes IH]; intros dirs.
  - cbn [fold_left filter map]. now rewrite app_nil_r.
  - cbn [fold_left filter]. rewrite IH.
    destruct (Js.truthy (Js.Str (basePath_of r))); [|reflexivity].
    cbn [map]. now rewrite <- app_assoc.
Qed.

Lemma filter_singleton {A} (f : A -> bool) (x : A) :
  filter f [x] = if f x then [x] else [].
Proof. reflexivity. Qed.

Lemma filter_filter {A} (f g : A -> bool) (l : list A) :
  filter g (filter f l) = filter (fun x => f x && g x) l.
Proof.
  induction l as [|x l IH]; [reflexivity|]. cbn [filter].
  destruct (f x); cbn [filter andb]; [destruct (g x)|]; now rewrite IH.
Qed.

Section AssetResolver.
Variable E : Env.

(** Every candidate is probed, and mounted when it exists. *)
Lemma serve_dirs_spec plugin pluginDir dirs w :
  let found :=
    filter (fun d => existsSync E (path_join E [pluginDir; Dir.path d])) dirs in
  serve_dirs E plugin pluginDir dirs w =
  (Ok tt,
   with_trace (fun _ => trace w ++ map (serve_event E plugin pluginDir) found)
     (with_app (fun _ => app w ++ map (mount_of E pluginDir) found) w)).
Proof.
  unfold serve_dirs. revert w. induction dirs as [|d dirs IH]; intros w.
  - cbn [for_of filter map]. unfold ret. same_world; now rewrite app_nil_r.
  - cbn [for_of filter]. cbv zeta in IH |- *. unfold bind at 1.
    destruct (existsSync E (path_join E [pluginDir; Dir.path d])).
    + unfold log, app_use, bind at 1, effect. rewrite IH. same_world.
    + unfold ret. rewrite IH. reflexivity.
Qed.

End AssetResolver.

(** C6, amended: for a named plugin whose install directory is found, the
    candidates are the seven fixed ones, in their order, followed by
    [<base>/dist] mounted at [/<base>] for every qualifying GET route whose
    trimmed base path is not empty; the resolver returns normally, and what it
    adds to the application is the static mount of every candidate whose
    directory exists, in the order of the candidates, none left out for a
    match before it. *)
Theorem asset_candidates_mounted_in_order
    (E : Env) (plugin : Plugin.t) (pluginDir : string) (w : world) :
  Js.truthy (Js.Str (Plugin.name plugin)) = true ->
  plugin_dir E plugin = Some pluginDir ->
  commonDirs
  = [ {| Dir.path := "dist/assets"; Dir.mount := "/assets" |};
      {| Dir.path := "frontend/dist"; Dir.mount := "/" |};
      {| Dir.path := "dist/client"; Dir.mount := "/" |};
      {| Dir.path := "dist"; Dir.mount := "/" |};
      {| Dir.path := "public"; Dir.mount := "/" |};
      {| Dir.path := "static"; Dir.mount := "/" |};
      {| Dir.path := "assets"; Dir.mount := "/assets" |} ] /\
  candidate_dirs plugin
  = commonDirs ++
    map route_candidate
      (filter (fun r => is_static_route r && Js.truthy (Js.Str (basePath_of r)))
         match Plugin.routes plugin with
         | Some routes => routes
         | None => []
         end) /\
  result (serve_plugin_assets E plugin) w = Ok tt /\
  app (run (serve_plugin_assets E plugin) w)
  = app w ++ map (mount_of E pluginDir)
               (filter (fun d => existsSync E (path_join E [pluginDir; Dir.path d]))
                  (candidate_dirs plugin)).
Proof.
  intros Hn Hd. split; [reflexivity|]. split.
  - unfold candidate_dirs. destruct (Plugin.routes plugin) as [routes|].
    + now rewrite push_candidates, filter_filter.
    + cbn [filter map]. now rewrite app_nil_r.
  - unfold serve_plugin_assets. rewrite Hn. cbn [negb].
    unfold result, run, try_catch. rewrite Hd, serve_dirs_spec.
    split; reflexivity.
Qed.

Lemma asset_candidates_mounted_in_order_witness :
  candidate_dirs Sample.portal_plugin
  = commonDirs ++ [ {| Dir.path := "portal/dist"; Dir.mount := "/portal" |} ] /\
  app (run (serve_plugin_assets Sample.env Sample.portal_plugin) new_AgentServer)
  = [ UseStatic "/" "/srv/node_modules/portal/dist" true;
      UseStatic "/portal" "/srv/node_modules/portal/portal/dist" true ].
Proof.
  destruct (asset_candidates_mounted_in_order Sample.env Sample.portal_plugin
              "/srv/node_modules/portal" new_AgentServer eq_refl eq_refl)
    as (_ & Hc & _ & Ha).
  split.
  - rewrite Hc. vm_compute. reflexivity.
  - rewrite Ha. vm_compute. reflexivity.
Defined.

(** ** Shutdown *)

Lemma on_signal_drains w l :
  alive w = true -> server w = Some l -> on_signal w = drained w l.
Proof.
  intros Ha Hs. unfold on_signal. now rewrite Ha, (gracefulShutdown_spec w l Hs).
Qed.

Lemma deliver_single s w :
  filter (signal_eqb s) (handlers w) = [s] -> deliver s w = on_signal w.
Proof. intros H. unfold deliver. now rewrite H. Qed.

Lemma fire_dead cb w : alive w = false -> fire cb w = w.
Proof. intros H. unfold fire. now rewrite H. Qed.

Lemma fire_all_cons cb cbs w : fire_all (cb :: cbs) w = fire_all cbs (fire cb w).
Proof. reflexivity. Qed.

Lemma fire_all_dead cbs w : alive w = false -> fire_all cbs w = w.
Proof.
  intros H. induction cbs as [|cb cbs IH]; [reflexivity|].
  cbn. now rewrite fire_dead.
Qed.

Lemma invoke_server cb : keeps (unchanged server) (invoke cb).
Proof. destruct cb; unfold invoke; frame. Qed.

Lemma fire_server cb w : server (fire cb w) = server w.
Proof.
  unfold fire. destruct (alive w); [|reflexivity].
  pose proof (invoke_server cb w) as H. unfold run, unchanged in H.
  destruct (invoke cb w) as [[[]|e] w']; cbn [snd] in H; [exact H|].
  fields. exact H.
Qed.

Lemma fire_all_server cbs w : server (fire_all cbs w) = server w.
Proof.
  revert w. induction cbs as [|cb cbs IH]; intros w; [reflexivity|].
  cbn. now rewrite IH, fire_server.
Qed.

(** The forced exit. *)
Lemma fire_timeout w :
  alive w = true -> exit_calls (trace w) = [] ->
  exited (fire ShutdownTimeoutCallback w) = Some 1%Z /\
  exit_calls (trace (fire ShutdownTimeoutCallback w)) = [1%Z].
Proof.
  intros Ha Hx. unfold fire. rewrite Ha. cbn. split; [reflexivity|].
  autorewrite with trace. now rewrite Hx.
Qed.

(** The clean exit. *)
Lemma fire_closed w :
  alive w = true -> exit_calls (trace w) = [] ->
  exited (fire ShutdownCloseCallback w) = Some 0%Z /\
  exit_calls (trace (fire ShutdownCloseCallback w)) = [0%Z].
Proof.
  intros Ha Hx. unfold fire. rewrite Ha. cbn. split; [reflexivity|].
  autorewrite with trace. now rewrite Hx.
Qed.

Lemma fire_all_timeouts cbs w :
  alive w = true -> exit_calls (trace w) = [] ->
  cbs <> [] -> Forall (fun cb => cb = ShutdownTimeoutCallback) cbs ->
  exited (fire_all cbs w) = Some 1%Z /\ exit_calls (trace (fire_all cbs w)) = [1%Z].
Proof.
  intros Ha Hx Hne Hall. destruct cbs as [|cb cbs]; [congruence|].
  inversion_clear Hall as [|? ? Hcb _]. subst cb. rewrite fire_all_cons.
  destruct (fire_timeout w Ha Hx) as [He Hc].
  rewrite fire_all_dead; [now split|]. unfold alive. now rewrite He.
Qed.

Lemma fire_all_close cbs w :
  alive w = true -> exit_calls (trace w) = [] ->
  Forall (fun cb => is_close_listener cb = true) cbs ->
  exited (fire_all (cbs ++ [ShutdownCloseCallback]) w) = Some 0%Z /\
  exit_calls (trace (fire_all (cbs ++ [ShutdownCloseCallback]) w)) = [0%Z].
Proof.
  intros Ha Hx Hall. revert w Ha Hx.
  induction Hall as [|cb cbs Hcb _ IH]; intros w Ha Hx.
  - now apply fire_closed.
  - rewrite <- app_comm_cons, fire_all_cons.
    destruct cb; try discriminate.
    + destruct (fire_closed w Ha Hx) as [He Hc].
      rewrite fire_all_dead; [now split|]. unfold alive. now rewrite He.
    + apply IH.
      * unfold fire. now rewrite Ha.
      * unfold fire. rewrite Ha. cbn. autorewrite with trace. now rewrite Hx.
Qed.

Lemma insert_timer_in t x l : In x (insert_timer t l) <-> x = t \/ In x l.
Proof.
  induction l as [|t' l IH]; cbn; [intuition congruence|].
  destruct (Nat.leb (fst t) (fst t')); cbn; [intuition congruence|].
  rewrite IH. intuition congruence.
Qed.

Lemma sort_timers_in x l : In x (sort_timers l) <-> In x l.
Proof.
  induction l as [|t l IH]; cbn; [tauto|].
  rewrite insert_timer_in, IH. intuition congruence.
Qed.

Lemma due_timers_force (P : nat * callback -> bool) l :
  Forall (fun t => snd t = ShutdownTimeoutCallback) l ->
  Forall (fun cb => cb = ShutdownTimeoutCallback) (map snd (sort_timers (filter P l))).
Proof.
  intros H. apply Forall_forall. intros cb Hin.
  apply in_map_iff in Hin. destruct Hin as (t & <- & Hin).
  apply sort_timers_in, filter_In in Hin.
  now apply (proj1 (Forall_forall _ _) H).
Qed.

(** C1, as the specification states it, fails: no flag guards
    [gracefulShutdown], so two signals run the drain twice.  With one agent
    registered and the server started, [SIGTERM] followed by [SIGINT] calls the
    agent's [stop] twice, calls [close] on the listener twice and arms two
    timers; the process still exits once. *)
Lemma two_signals_drain_twice :
  stop_calls (trace Sample.started) = [] /\
  stop_calls (trace Sample.signalled_twice) = ["a1"; "a1"] /\
  close_calls (trace Sample.signalled_twice) = 2 /\
  timers Sample.signalled_twice
  = [(5000, ShutdownTimeoutCallback); (5000, ShutdownTimeoutCallback)] /\
  exit_calls (trace (exec Sample.env Sample.signalled_twice [EmitClose; Elapse 5000]))
  = [0%Z].
Proof. repeat (split; [vm_compute; reflexivity|]). vm_compute. reflexivity. Qed.

(** C1, amended: every trigger of the shutdown handler runs the drain
    sequence again.  On a running server with a listener, one trigger calls
    [stop] on every registered agent once, in registry order; a second trigger
    calls [stop] on every one of them once more, so that [close] has been
    called on the listener twice and two timers are armed; with the handlers of
    a single [start], [SIGTERM] followed by [SIGINT] are two such triggers.
    The process-exit call is made at most once, whatever happens afterwards. *)
Theorem every_trigger_drains (E : Env) (acts : list action) (l : Listener) :
  let w := exec E new_AgentServer acts in
  alive w = true ->
  server w = Some l ->
  let w1 := on_signal w in
  let w2 := on_signal w1 in
  stop_calls (trace w1) = stop_calls (trace w) ++ JsMap.keys (agents w) /\
  stop_calls (trace w2)
  = stop_calls (trace w) ++ JsMap.keys (agents w) ++ JsMap.keys (agents w) /\
  close_calls (trace w2) = close_calls (trace w) + 2 /\
  timers w2
  = timers w ++ [(clock w + 5000, ShutdownTimeoutCallback);
                 (clock w + 5000, ShutdownTimeoutCallback)] /\
  (handlers w = [SIGTERM; SIGINT] ->
   step E (step E w (Signal SIGTERM)) (Signal SIGINT) = w2) /\
  forall more, List.length (exit_calls (trace (exec E w2 more))) <= 1.
Proof.
  intros w Ha Hs w1 w2.
  assert (H1 : w1 = drained w l) by (now apply on_signal_drains).
  assert (Ha1 : alive w1 = true) by (now rewrite H1).
  assert (H2 : w2 = drained w1 _) by (apply on_signal_drains; [exact Ha1|now rewrite H1]).
  assert (Ha2 : alive w2 = true) by (now rewrite H2).
  split; [|split; [|split; [|split; [|split]]]].
  - rewrite H1. unfold drained. trace_calc. reflexivity.
  - rewrite H2, H1. unfold drained. trace_calc. now rewrite <- !app_assoc.
  - rewrite H2, H1. unfold drained. trace_calc. lia.
  - rewrite H2, H1. unfold drained. fields. now rewrite <- app_assoc.
  - intros Hh.
    assert (Hh1 : handlers w1 = [SIGTERM; SIGINT]) by (now rewrite H1).
    assert (Hstep : step E w (Signal SIGTERM) = w1).
    { unfold step. rewrite Ha. apply deliver_single. now rewrite Hh. }
    rewrite Hstep. unfold step. rewrite Ha1. apply deliver_single. now rewrite Hh1.
  - intros more.
    assert (C : consistent (exec E w2 more)).
    { apply exec_consistent_from. subst w2 w1.
      apply on_signal_consistent, on_signal_consistent, exec_consistent. }
    destruct (exit_once _ C) as [->|(c & -> & _)]; cbn; lia.
Qed.

Lemma every_trigger_drains_witness :
  stop_calls (trace (on_signal (on_signal Sample.started))) = ["a1"; "a1"] /\
  List.length (exit_calls
    (trace (exec Sample.env (on_signal (on_signal Sample.started))
              [EmitClose; Elapse 5000]))) <= 1.
Proof.
  pose proof (every_trigger_drains Sample.env
                [CallRegisterAgent (Some Sample.eliza); CallStart (Js.of_Z 3000)]
                {| port := Js.of_Z 3000;
                   on_listening := [ListeningCallback (Js.of_Z 3000)];
                   closing := false; on_close := [] |}
                eq_refl eq_refl) as H.
  cbv zeta in H. destruct H as (_ & Hs & _ & _ & _ & Hx).
  split; [|exact (Hx [EmitClose; Elapse 5000])].
  etransitivity; [exact Hs|]. vm_compute. reflexivity.
Defined.

(** ** [stop] *)

(** C3, as the specification states it, fails: with one agent registered and
    the server started, a call of [stop], the listener closing after it, and ten
    seconds going by leave the agent's [stop] never called and the process
    running; only [close] was called on the listener. *)
Lemma stop_drains_nothing :
  JsMap.keys (agents Sample.started) = ["a1"] /\
  stop_calls (trace Sample.stopped) = [] /\
  close_calls (trace Sample.stopped) = 1 /\
  exit_calls (trace Sample.stopped) = [] /\
  exited Sample.stopped = None.
Proof. repeat (split; [vm_compute; reflexivity|]). vm_compute. reflexivity. Qed.

(** C3, amended: [stop] runs no part of the drain but the closing of the
    listener.  It calls no agent's [stop], makes no exit call, arms no timer
    and leaves the registry and the application as they were; without a
    listener it does nothing at all; with one, it calls [close] on it once,
    with a callback that, when the listener has closed, logs [Server stopped]
    and leaves the process running. *)
Theorem stop_only_closes_the_listener (w : world) :
  result stop w = Ok tt /\
  stop_calls (trace (run stop w)) = stop_calls (trace w) /\
  exit_calls (trace (run stop w)) = exit_calls (trace w) /\
  exited (run stop w) = exited w /\
  timers (run stop w) = timers w /\
  registry_view (run stop w) = registry_view w /\
  match server w with
  | None => run stop w = w
  | Some l =>
      close_calls (trace (run stop w)) = close_calls (trace w) + 1 /\
      server (run stop w)
      = Some {| port := port l; on_listening := on_listening l; closing := true;
                on_close := on_close l ++ [StopCloseCallback] |}
  end /\
  fire StopCloseCallback w
  = if alive w then emit (Logged SUCCESS [Txt "Server stopped"] None) w else w.
Proof.
  unfold run, result. rewrite stop_spec.
  destruct (server w) as [l|]; cbn [fst snd]; fields;
    repeat split; trace_calc; try reflexivity; lia.
Qed.

(** ** The race between the closing listener and the timer *)

(** C8: once the shutdown handler has run on a running server with a
    listener, whatever the agents' [stop] operations do (return, never
    complete, or throw), two completions are pending: the listener's ['close']
    with the clean-exit callback, and a timer due 5000 ms later with the
    forced-exit callback.  If 5000 ms or more go by before the listener has
    closed, the process exits with status 1.  If the listener closes while
    the process is still running, the process exits with status 0, and that
    is the case for any delay below 5000 ms when no earlier timer is armed.
    Nothing that happens after the exit changes its status. *)
Theorem shutdown_race (E : Env) (acts : list action) (l : Listener) :
  let w := exec E new_AgentServer acts in
  alive w = true ->
  server w = Some l ->
  let w1 := on_signal w in
  alive w1 = true /\
  (exists l1, server w1 = Some l1 /\ closing l1 = true /\
              In ShutdownCloseCallback (on_close l1)) /\
  In (clock w + 5000, ShutdownTimeoutCallback) (timers w1) /\
  (forall ms, 5000 <= ms ->
     exited (elapse ms w1) = Some 1%Z /\
     exit_calls (trace (elapse ms w1)) = [1%Z]) /\
  (forall ms, alive (elapse ms w1) = true ->
     exited (emit_close (elapse ms w1)) = Some 0%Z /\
     exit_calls (trace (emit_close (elapse ms w1))) = [0%Z]) /\
  (timers w = [] -> forall ms, ms < 5000 -> alive (elapse ms w1) = true) /\
  (forall w' c a, exited w' = Some c -> step E w' a = w').
Proof.
  intros w Ha Hs w1.
  pose proof (exec_consistent E acts) as C. fold w in C.
  assert (H1 : w1 = drained w l) by (now apply on_signal_drains).
  assert (C1 : consistent w1) by (now apply on_signal_consistent).
  assert (Ha1 : alive w1 = true) by (now rewrite H1).
  clearbody w1. subst w1.
  split; [exact Ha1|]. split; [|split; [|split; [|split; [|split]]]].
  - eexists. split; [reflexivity|]. split; [reflexivity|].
    cbn. apply in_or_app. right. now left.
  - cbn. apply in_or_app. right. now left.
  - intros ms Hms. unfold elapse. apply fire_all_timeouts.
    + exact Ha1.
    + fields. now apply alive_no_exit.
    + intros Hnil.
      assert (Hin : In (clock w + 5000, ShutdownTimeoutCallback)
                      (sort_timers
                         (filter (fun t => Nat.leb (fst t) (clock (drained w l) + ms))
                            (timers (drained w l))))).
      { apply sort_timers_in, filter_In. split.
        - cbn. apply in_or_app. right. now left.
        - cbn [fst clock drained]. apply Nat.leb_le. lia. }
      destruct (sort_timers _); [destruct Hin|discriminate].
    + apply due_timers_force, (timers_force _ C1).
  - intros ms Hal.
    pose proof (alive_no_exit _ (elapse_consistent ms _ C1) Hal) as Hx.
    assert (Hsrv : server (elapse ms (drained w l)) = server (drained w l))
      by (unfold elapse; now rewrite fire_all_server).
    unfold emit_close. rewrite Hsrv. cbn [server drained closing on_close].
    apply fire_all_close.
    + exact Hal.
    + fields. exact Hx.
    + now apply (close_listeners w C).
  - intros Ht ms Hms.
    assert (Hleb : Nat.leb (clock w + 5000) (clock w + ms) = false)
      by (apply Nat.leb_gt; lia).
    unfold elapse. cbn [timers drained clock]. rewrite Ht.
    rewrite !app_nil_l, !filter_singleton. cbn [fst]. rewrite Hleb. exact Ha.
  - intros w' c a Hc. unfold step, alive. now rewrite Hc.
Qed.

Lemma shutdown_race_witness :
  Runtime.stop Sample.eliza = StopNeverCompletes /\
  exited (elapse 5000 (on_signal Sample.started)) = Some 1%Z /\
  exited (emit_close (elapse 4999 (on_signal Sample.started))) = Some 0%Z.
Proof.
  pose proof (shutdown_race Sample.env
                [CallRegisterAgent (Some Sample.eliza); CallStart (Js.of_Z 3000)]
                {| port := Js.of_Z 3000;
                   on_listening := [ListeningCallback (Js.of_Z 3000)];
                   closing := false; on_close := [] |}
                eq_refl eq_refl) as H.
  cbv zeta in H. destruct H as (_ & _ & _ & Hforced & Hclean & Hfree & _).
  split; [reflexivity|]. split.
  - apply (Hforced 5000). apply Nat.le_refl.
  - apply (Hclean 4999). apply (Hfree eq_refl 4999). apply Nat.lt_succ_diag_r.
Defined.

(** * More of the file *)

(** ** Strings *)

Lemma length_append s t : String.length (s ++ t) = String.length s + String.length t.
Proof. induction s as [|c s IH]; simpl; [reflexivity|now rewrite IH]. Qed.

Lemma substring_all s : substring 0 (String.length s) s = s.
Proof. induction s as [|c s IH]; simpl; [reflexivity|now rewrite IH]. Qed.

Lemma substring_append_l s t : substring 0 (String.length s) (s ++ t) = s.
Proof.
  induction s as [|c s IH]; simpl; [now destruct t|now rewrite IH].
Qed.

Lemma substring_append_r s t :
  substring (String.length s) (String.length t) (s ++ t) = t.
Proof.
  induction s as [|c s IH]; simpl; [apply substring_all|exact IH].
Qed.

Lemma endsWith_append s t : Js.endsWith (s ++ t) t = true.
Proof.
  unfold Js.endsWith. rewrite length_append.
  replace (String.length s + String.length t - String.length t) with (String.length s) by lia.
  rewrite substring_append_r, String.eqb_refl, andb_true_r.
  apply Nat.leb_le. lia.
Qed.

Lemma slice_to_minus_append s t :
  Js.slice_to_minus (String.length t) (s ++ t) = s.
Proof.
  unfold Js.slice_to_minus. rewrite length_append.
  replace (String.length s + String.length t - String.length t) with (String.length s) by lia.
  apply substring_append_l.
Qed.

Lemma substring_split n m s :
  String.length s = n + m ->
  (substring 0 n s ++ substring n m s)%string = s.
Proof.
  revert s. induction n as [|n IH]; intros s Hlen.
  - simpl in Hlen. subst m. rewrite substring_all. now destruct s.
  - destruct s as [|c s]; [discriminate|]. simpl in *. f_equal. apply IH. lia.
Qed.

(** A string that ends with [t] is what precedes [t], then [t]. *)
Lemma endsWith_split s t :
  Js.endsWith s t = true -> s = (Js.slice_to_minus (String.length t) s ++ t)%string.
Proof.
  unfold Js.endsWith, Js.slice_to_minus. intros H.
  apply andb_true_iff in H. destruct H as [Hle Heq].
  apply Nat.leb_le in Hle. apply String.eqb_eq in Heq.
  pose proof (substring_split (String.length s - String.length t) (String.length t) s
                ltac:(lia)) as H.
  rewrite Heq in H. now symmetry.
Qed.




(** ** [expandTildePath] *)



(** ** [AGENT_RUNTIME_URL] *)

Lemma truthy_str s : Js.truthy (Js.Str s) = true <-> s <> "".
Proof.
  cbn [Js.truthy]. rewrite negb_true_iff. apply String.eqb_neq.
Qed.

(** X2: the runtime URL is never empty: it is the default when the variable
    is unset, empty or a lone slash; a non-empty value followed by a slash
    gives that value, one slash being removed and no more; a non-empty value
    that does not end in a slash is kept. *)
Theorem runtime_url_normalised (env : option string) (u : string) :
  u <> "" ->
  AGENT_RUNTIME_URL env <> "" /\
  AGENT_RUNTIME_URL None = "http://localhost:3000" /\
  AGENT_RUNTIME_URL (Some "") = "http://localhost:3000" /\
  AGENT_RUNTIME_URL (Some "/") = "http://localhost:3000" /\
  AGENT_RUNTIME_URL (Some (u ++ "/")%string) = u /\
  AGENT_RUNTIME_URL (Some (u ++ "//")%string) = (u ++ "/")%string /\
  (Js.endsWith u "/" = false -> AGENT_RUNTIME_URL (Some u) = u).
Proof.
  intros Hu.
  assert (Hstrip : forall v, strip_trailing_slash (v ++ "/")%string = v).
  { intros v. unfold strip_trailing_slash. rewrite endsWith_append.
    exact (slice_to_minus_append v "/"). }
  split; [|split; [|split; [|split; [|split; [|split]]]]]; try reflexivity.
  - destruct env as [url|]; [|discriminate]. unfold AGENT_RUNTIME_URL.
    destruct (Js.truthy (Js.Str (strip_trailing_slash url))) eqn:Ht; [|discriminate].
    now apply truthy_str.
  - unfold AGENT_RUNTIME_URL. rewrite Hstrip.
    now rewrite (proj2 (truthy_str u) Hu).
  - unfold AGENT_RUNTIME_URL.
    replace (u ++ "//")%string with ((u ++ "/") ++ "/")%string
      by (clear; induction u as [|c u IH]; simpl; [reflexivity|now rewrite IH]).
    rewrite Hstrip.
    assert (Hne : (u ++ "/")%string <> "") by (destruct u; discriminate).
    now rewrite (proj2 (truthy_str _) Hne).
  - intros He. unfold AGENT_RUNTIME_URL, strip_trailing_slash. rewrite He.
    now rewrite (proj2 (truthy_str u) Hu).
Qed.

Lemma runtime_url_normalised_witness :
  AGENT_RUNTIME_URL (Some "http://eliza.example:3000/") = "http://eliza.example:3000".
Proof.
  destruct (runtime_url_normalised None "http://eliza.example:3000" ltac:(discriminate))
    as (_ & _ & _ & _ & H & _).
  exact H.
Defined.

(** ** Content types *)


(** ** The registry, beyond the claims *)

(** X4: a missing handle, a handle without identifier and a handle without
    character are refused, in this order of checks, with the error of the
    failed check; the refusal is logged once and nothing else happens: the
    registry, the application and the rest of the world are what they were. *)
Theorem invalid_handle_refused (E : Env) (runtime : option Runtime.t) (w : world) :
  accepts_handle runtime = false ->
  registerAgent E runtime w
  = (Throw (Error (refusal runtime)),
     emit (Logged ERROR [Txt "Failed to register agent:"]
             (Some (Error (refusal runtime)))) w) /\
  agents (run (registerAgent E runtime) w) = agents w /\
  app (run (registerAgent E runtime) w) = app w.
Proof.
  intros H.
  assert (Hreg : registerAgent E runtime w
                 = (Throw (Error (refusal runtime)),
                    emit (Logged ERROR [Txt "Failed to register agent:"]
                            (Some (Error (refusal runtime)))) w)).
  { destruct runtime as [r|]; [|reflexivity].
    cbn [accepts_handle] in H. unfold valid_runtime in H.
    unfold registerAgent, refusal, try_catch.
    destruct (Js.truthy (Js.Str (Runtime.agentId r))); [|reflexivity].
    destruct (Runtime.character r); [discriminate|reflexivity]. }
  unfold run. rewrite Hreg. repeat split.
Qed.

Lemma invalid_handle_refused_witness :
  result (registerAgent Sample.env None) Sample.started
  = Throw (Error [Txt "Attempted to register null/undefined runtime"]) /\
  agents (run (registerAgent Sample.env None) Sample.started) = agents Sample.started.
Proof.
  destruct (invalid_handle_refused Sample.env None Sample.started eq_refl)
    as (Hreg & Ha & _).
  split; [|exact Ha]. unfold result. now rewrite Hreg.
Defined.

Lemma fire_agents cb w : agents (fire cb w) = agents w.
Proof.
  unfold fire. destruct (alive w); [|reflexivity].
  pose proof (registry_view_agents _ _ (invoke_registry cb w)) as H. unfold run in H.
  destruct (invoke cb w) as [[[]|e] w']; cbn [snd] in H; exact H.
Qed.

Lemma fire_app cb w : app (fire cb w) = app w.
Proof.
  unfold fire. destruct (alive w); [|reflexivity].
  pose proof (registry_view_app _ _ (invoke_registry cb w)) as H. unfold run in H.
  destruct (invoke cb w) as [[[]|e] w']; cbn [snd] in H; exact H.
Qed.

Lemma fire_all_registry cbs w :
  agents (fire_all cbs w) = agents w /\ app (fire_all cbs w) = app w.
Proof.
  revert w. induction cbs as [|cb cbs IH]; intros w; [now split|].
  rewrite fire_all_cons. destruct (IH (fire cb w)) as [Ha Hp].
  now rewrite Ha, Hp, fire_agents, fire_app.
Qed.

Lemma on_signal_registry w :
  agents (on_signal w) = agents w /\ app (on_signal w) = app w.
Proof.
  unfold on_signal. destruct (alive w); [|now split].
  pose proof (gracefulShutdown_registry w) as H.
  unfold run, unchanged, registry_view in H.
  destruct (gracefulShutdown w) as [[[]|e] w']; cbn [snd] in H;
    injection H as Ha Hp; now split.
Qed.

Lemma deliver_registry s w :
  agents (deliver s w) = agents w /\ app (deliver s w) = app w.
Proof.
  unfold deliver. destruct (filter (signal_eqb s) (handlers w)) as [|h hs]; [now split|].
  generalize (h :: hs). intros listeners. revert w.
  induction listeners as [|x listeners IH]; intros w; [now split|].
  cbn [fold_left]. destruct (IH (on_signal w)) as [Ha Hp].
  destruct (on_signal_registry w) as [Ha' Hp']. now rewrite Ha, Hp, Ha', Hp'.
Qed.

Section RegistryFrame.
Variable E : Env.

Lemma database_ready_agents o w : agents (database_ready E o w) = agents w.
Proof.
  unfold database_ready.
  set (m := (log SUCCESS [Txt "Database initialized successfully"] ;;
             initializeServer E o)).
  assert (Ha : keeps (unchanged agents) m)
    by (subst m; frame; apply initializeServer_agents).
  specialize (Ha w). unfold run, unchanged in Ha.
  destruct (m w) as [[[]|e] w']; cbn [snd] in Ha; exact Ha.
Qed.

(** Every turn of the loop that is not a call of [registerAgent] or
    [unregisterAgent] leaves the registry alone. *)
Lemma step_agents w a :
  is_registry_call a = false -> agents (step E w a) = agents w.
Proof.
  intros Ha. unfold step. destruct (alive w); [|reflexivity].
  destruct a; try discriminate.
  - reflexivity.
  - exact (registry_view_agents _ _ (start_registry E port0 w)).
  - exact (registry_view_agents _ _ (stop_registry w)).
  - apply database_ready_agents.
  - apply deliver_registry.
  - unfold emit_listening. destruct (server w); [|reflexivity].
    now rewrite (proj1 (fire_all_registry _ _)).
  - unfold emit_close. destruct (server w) as [l|]; [|reflexivity].
    destruct (closing l); [|reflexivity].
    now rewrite (proj1 (fire_all_registry _ _)).
  - unfold elapse. now rewrite (proj1 (fire_all_registry _ _)).
Qed.

End RegistryFrame.

(** X5: the registry changes only through [registerAgent] and
    [unregisterAgent].  No other turn of the event loop adds, replaces or
    removes a handle: not [start], [stop] or [registerMiddleware], not the
    initialization, not a listener event or a timer, and not a termination
    signal, whose handler stops the agents but leaves them registered. *)
Theorem only_registration_changes_registry (E : Env) (w : world) (acts : list action) :
  forallb (fun a => negb (is_registry_call a)) acts = true ->
  agents (exec E w acts) = agents w.
Proof.
  revert w. induction acts as [|a acts IH]; intros w H; [reflexivity|].
  cbn [forallb] in H. apply andb_true_iff in H. destruct H as [Ha Hacts].
  apply negb_true_iff in Ha. cbn [exec fold_left].
  change (fold_left (step E) acts (step E w a)) with (exec E (step E w a) acts).
  rewrite IH by exact Hacts. now apply step_agents.
Qed.

Lemma only_registration_changes_registry_witness :
  JsMap.keys (agents (exec Sample.env Sample.started
                        [Signal SIGTERM; CallStop; Elapse 100; EmitClose]))
  = ["a1"].
Proof.
  rewrite (only_registration_changes_registry Sample.env Sample.started
             [Signal SIGTERM; CallStop; Elapse 100; EmitClose] eq_refl).
  vm_compute. reflexivity.
Defined.

Lemma set_Forall {V} (P : string * V -> Prop) k v (m : JsMap.t V) :
  P (k, v) -> Forall P m -> Forall P (JsMap.set k v m).
Proof.
  intros Hk Hm. induction Hm as [|[k' v'] m Hx Hm IH]; cbn.
  - now repeat constructor.
  - destruct (k' =? k); constructor; assumption.
Qed.

Lemma delete_Forall {V} (P : string * V -> Prop) k (m : JsMap.t V) :
  Forall P m -> Forall P (JsMap.delete k m).
Proof.
  intros Hm. induction Hm as [|[k' v'] m Hx Hm IH]; cbn; [constructor|].
  destruct (k' =? k); [assumption|now constructor].
Qed.

Lemma get_In {V} k v (m : JsMap.t V) : JsMap.get k m = Some v -> In (k, v) m.
Proof.
  induction m as [|[k' v'] m IH]; cbn; [discriminate|].
  destruct (String.eqb_spec k' k) as [->|_]; [intros [= ->]; now left|auto].
Qed.

Lemma step_registry_valid E w a :
  registry_valid (agents w) -> registry_valid (agents (step E w a)).
Proof.
  intros Hv. destruct (is_registry_call a) eqn:Hc.
  - unfold step. destruct (alive w); [|exact Hv].
    destruct a; try discriminate.
    + rewrite registerAgent_agents. destruct runtime as [r|]; [|exact Hv].
      destruct (valid_runtime r) eqn:Hr; [|exact Hv].
      apply set_Forall; [now split|exact Hv].
    + unfold run. rewrite unregisterAgent_spec.
      destruct (Js.truthy (Js.Str agentId)); [|exact Hv].
      now apply delete_Forall.
  - now rewrite step_agents.
Qed.

Lemma exec_registry_valid E w acts :
  registry_valid (agents w) -> registry_valid (agents (exec E w acts)).
Proof.
  revert w. induction acts as [|a acts IH]; intros w Hw; [exact Hw|].
  cbn [exec fold_left]. apply IH. now apply step_registry_valid.
Qed.

(** X6: in every world the event loop can reach, every handle of the
    registry is held under its own identifier, and is a handle that
    [registerAgent] accepts: its identifier is not empty and it has a
    character.  So the listing callback of [start], which reads
    [agent.character.name] of every registered agent, finds a character
    there. *)
Theorem registry_holds_valid_handles (E : Env) (acts : list action) :
  registry_valid (agents (exec E new_AgentServer acts)) /\
  forall id rt,
    JsMap.get id (agents (exec E new_AgentServer acts)) = Some rt ->
    Runtime.agentId rt = id /\ id <> "" /\ Runtime.character rt <> None.
Proof.
  assert (Hv : registry_valid (agents (exec E new_AgentServer acts))).
  { apply exec_registry_valid. constructor. }
  split; [exact Hv|]. intros id rt Hget. apply get_In in Hget.
  destruct (proj1 (Forall_forall _ _) Hv _ Hget) as [Hid Hval]. cbn [fst snd] in *.
  destruct (valid_runtime_inv rt Hval) as (Ht & c & Hc).
  split; [now symmetry|]. split.
  - rewrite Hid. now apply truthy_str.
  - now rewrite Hc.
Qed.

Lemma delete_absent {V} k (m : JsMap.t V) : JsMap.get k m = None -> JsMap.delete k m = m.
Proof.
  induction m as [|[k' v'] m IH]; cbn; [reflexivity|].
  destruct (k' =? k); [discriminate|]. intros H. now rewrite IH.
Qed.

Lemma delete_set {V} k v (m : JsMap.t V) :
  JsMap.delete k (JsMap.set k v m) = JsMap.delete k m.
Proof.
  induction m as [|[k' v'] m IH]; cbn.
  - now rewrite String.eqb_refl.
  - destruct (String.eqb_spec k' k) as [->|Hne]; cbn.
    + now rewrite String.eqb_refl.
    + destruct (String.eqb_spec k' k); [congruence|now rewrite IH].
Qed.

#[export] Instance app_extends_frame : Frame app_extends.
Proof.
  split.
  - intros w. exists []. now rewrite app_nil_r.
  - intros a b c [m1 H1] [m2 H2]. exists (m1 ++ m2). now rewrite H2, H1, app_assoc.
Qed.

Lemma app_extends_same w w' : app w' = app w -> app_extends w w'.
Proof. intros H. exists []. now rewrite app_nil_r. Qed.

(** Closes the goals [frame] leaves for [app_extends]. *)
Ltac extends_leaf :=
  first [ apply app_extends_same; reflexivity
        | eexists; fields; reflexivity ].

Lemma registerAgent_extends E rt : keeps app_extends (registerAgent E rt).
Proof.
  unfold registerAgent, register_tee, mount_route, route_switch.
  frame; extends_leaf.
Qed.

(** X7: unregistering an identifier that is not registered changes nothing
    in the registry.  Registering a valid handle and then unregistering its
    identifier leaves the registry without that identifier: restored exactly
    when the identifier was new, and without the handle it replaced
    otherwise.  The routes the registration mounted stay in the
    application. *)
Theorem register_then_unregister (E : Env) (rt : Runtime.t) (w : world) :
  valid_runtime rt = true ->
  let id := Runtime.agentId rt in
  let w1 := run (registerAgent E (Some rt)) w in
  let w2 := run (unregisterAgent id) w1 in
  agents w2 = JsMap.delete id (agents w) /\
  (JsMap.get id (agents w) = None ->
   agents w2 = agents w /\ agents (run (unregisterAgent id) w) = agents w) /\
  app w2 = app w1 /\
  app_extends w w2.
Proof.
  intros Hv id w1 w2.
  destruct (valid_runtime_inv rt Hv) as (Hid & _).
  assert (Hun : forall w0, agents (run (unregisterAgent id) w0) = JsMap.delete id (agents w0)).
  { intros w0. unfold run. rewrite unregisterAgent_spec. fold id in Hid. now rewrite Hid. }
  assert (Ha : agents w2 = JsMap.delete id (agents w)).
  { subst w2 w1. rewrite Hun, registerAgent_agents, Hv. apply delete_set. }
  assert (Hp : app w2 = app w1).
  { subst w2. unfold run at 1. rewrite unregisterAgent_spec. fold id in Hid.
    now rewrite Hid. }
  split; [exact Ha|]. split; [|split; [exact Hp|]].
  - intros Hg. rewrite Ha, Hun. now rewrite delete_absent.
  - destruct (registerAgent_extends E (Some rt) w) as [more Hm]. fold w1 in Hm.
    exists more. now rewrite Hp.
Qed.

Lemma register_then_unregister_witness :
  agents (run (unregisterAgent "a2")
            (run (registerAgent Sample.env (Some Sample.faulty)) Sample.started))
  = agents Sample.started /\
  app (run (unregisterAgent "a2")
         (run (registerAgent Sample.env (Some Sample.faulty)) Sample.started))
  = app Sample.started ++ [binding_of Sample.faulty Sample.submit].
Proof.
  pose proof (register_then_unregister Sample.env Sample.faulty Sample.started eq_refl) as H.
  cbv zeta in H. destruct H as (_ & Hnew & Hp & _).
  split.
  - apply Hnew. vm_compute. reflexivity.
  - etransitivity; [exact Hp|]. vm_compute. reflexivity.
Defined.

(** ** A registration that fails on the way *)

Lemma for_of_app {A} (l1 l2 : list A) (body : A -> M unit) w :
  for_of (l1 ++ l2) body w =
  match for_of l1 body w with
  | (Ok _, w') => for_of l2 body w'
  | (Throw e, w') => (Throw e, w')
  end.
Proof.
  revert w. induction l1 as [|x l1 IH]; intros w; [reflexivity|].
  cbn [for_of List.app]. unfold bind.
  destruct (body x w) as [[[]|e] w']; [apply IH|reflexivity].
Qed.

Lemma mount_route_refused E rt route w :
  known_type (Route.type route) = true ->
  express_rejects E (verb_of (Route.type route)) (Route.path route) = true ->
  mount_route E rt route w = (Throw (Thrown "express"), emit (route_failure route) w).
Proof.
  intros Hk Hr. unfold mount_route. rewrite route_switch_known by exact Hk.
  unfold try_catch, bind, app_method. rewrite Hr. reflexivity.
Qed.

(** X8: when express refuses a route of a valid handle, the routes listed
    before it stay mounted and the routes listed after it are never tried:
    [registerAgent] throws the error of express, the application has gained
    exactly the bindings of the routes of known classifier that precede the
    refused one, and the failure is logged twice, by the loop and by
    [registerAgent] itself. *)
Theorem earlier_routes_stay_mounted
    (E : Env) (w : world) (rt : Runtime.t) (before after : list Route.t)
    (refused : Route.t) :
  valid_runtime rt = true ->
  tee_ready rt = true ->
  Runtime.routes rt = before ++ refused :: after ->
  (forall r, In r before -> known_type (Route.type r) = true ->
     express_rejects E (verb_of (Route.type r)) (Route.path r) = false) ->
  known_type (Route.type refused) = true ->
  express_rejects E (verb_of (Route.type refused)) (Route.path refused) = true ->
  result (registerAgent E (Some rt)) w = Throw (Thrown "express") /\
  app (run (registerAgent E (Some rt)) w)
  = app w ++ map (binding_of rt) (filter (fun r => known_type (Route.type r)) before) /\
  exists earlier,
    trace (run (registerAgent E (Some rt)) w)
    = earlier ++ [ route_failure refused;
                   Logged ERROR [Txt "Failed to register agent:"] (Some (Thrown "express")) ].
Proof.
  intros Hv Ht Hroutes Hacc Hk Hr.
  destruct (valid_runtime_inv rt Hv) as (Hid & c & Hc).
  assert (Hreg : exists earlier w',
    registerAgent E (Some rt) w = (Throw (Thrown "express"), w') /\
    app w' = app w ++ map (binding_of rt)
                        (filter (fun r => known_type (Route.type r)) before) /\
    trace w' = earlier ++ [ route_failure refused;
                            Logged ERROR [Txt "Failed to register agent:"]
                              (Some (Thrown "express")) ]).
  { unfold registerAgent, try_catch. rewrite Hid, Hc. cbn [negb].
    unfold log. rewrite !run_effect_bind. unfold bind at 1.
    match goal with |- context [register_tee rt ?w0] => set (w3 := w0) end.
    pose proof (register_tee_returns rt w3 Ht) as Hres.
    pose proof (register_tee_app rt w3) as Happ.
    unfold result, run, unchanged in Hres, Happ.
    destruct (register_tee rt w3) as [o wt]. cbn [fst snd] in Hres, Happ.
    subst o. rewrite !run_effect_bind. unfold bind at 1.
    rewrite Hroutes, for_of_app, mount_loop_accepted by exact Hacc.
    cbn [for_of]. unfold bind at 1. rewrite mount_route_refused by assumption.
    unfold log_error, bind, effect, throw.
    do 2 eexists. split; [reflexivity|]. fields.
    rewrite Happ. subst w3. fields. split; [reflexivity|].
    rewrite <- app_assoc. reflexivity. }
  destruct Hreg as (earlier & w' & Hreg & Happ & Htr).
  unfold run, result. rewrite Hreg. cbn [fst snd].
  split; [reflexivity|]. split; [exact Happ|]. exists earlier. exact Htr.
Qed.

Lemma earlier_routes_stay_mounted_witness :
  result (registerAgent Sample.env (Some Sample.faulty)) new_AgentServer
  = Throw (Thrown "express") /\
  app (run (registerAgent Sample.env (Some Sample.faulty)) new_AgentServer)
  = [binding_of Sample.faulty Sample.submit].
Proof.
  assert (Hacc : forall r, In r [Sample.submit] ->
            known_type (Route.type r) = true ->
            express_rejects Sample.env (verb_of (Route.type r)) (Route.path r) = false).
  { intros r [<-|[]] _. reflexivity. }
  destruct (earlier_routes_stay_mounted Sample.env new_AgentServer Sample.faulty
              [Sample.submit] [Sample.portal] Sample.broken
              eq_refl eq_refl eq_refl Hacc eq_refl eq_refl) as (Hr & Ha & _).
  split; [exact Hr|exact Ha].
Defined.

(** ** What is mounted stays mounted *)

Lemma step_extends E w a :
  is_database_ready a = false -> app_extends w (step E w a).
Proof.
  intros Ha. unfold step. destruct (alive w); [|apply frame_refl].
  destruct a; try discriminate.
  - apply registerAgent_extends.
  - apply app_extends_same. unfold run. rewrite unregisterAgent_spec.
    now destruct (Js.truthy (Js.Str agentId)).
  - eexists. reflexivity.
  - apply app_extends_same. exact (registry_view_app _ _ (start_registry E port0 w)).
  - apply app_extends_same. exact (registry_view_app _ _ (stop_registry w)).
  - apply app_extends_same. apply deliver_registry.
  - apply app_extends_same. unfold emit_listening. destruct (server w); [|reflexivity].
    now rewrite (proj2 (fire_all_registry _ _)).
  - apply app_extends_same. unfold emit_close. destruct (server w) as [l|]; [|reflexivity].
    destruct (closing l); [|reflexivity].
    now rewrite (proj2 (fire_all_registry _ _)).
  - apply app_extends_same. unfold elapse. now rewrite (proj2 (fire_all_registry _ _)).
Qed.

(** X9: apart from the initialization that follows the database, no turn of
    the event loop takes a layer off the application or reorders the layers:
    after any sequence of calls, signals, listener events and delays, the
    application is the one before with, perhaps, more layers after it.  In
    particular [unregisterAgent] and the shutdown handler retract no route
    and no static mount. *)
Theorem layers_are_only_added (E : Env) (w : world) (acts : list action) :
  forallb (fun a => negb (is_database_ready a)) acts = true ->
  app_extends w (exec E w acts) /\
  forall l, In l (app w) -> In l (app (exec E w acts)).
Proof.
  intros H.
  assert (Hx : app_extends w (exec E w acts)).
  { revert w. induction acts as [|a acts IH]; intros w; [apply frame_refl|].
    cbn [forallb] in H. apply andb_true_iff in H. destruct H as [Ha Hacts].
    apply negb_true_iff in Ha. cbn [exec fold_left].
    change (fold_left (step E) acts (step E w a)) with (exec E (step E w a) acts).
    apply (frame_trans w (step E w a)); [now apply step_extends|now apply IH]. }
  split; [exact Hx|]. intros l Hin. destruct Hx as [more ->].
  apply in_or_app. now left.
Qed.

Lemma layers_are_only_added_witness :
  In (binding_of Sample.eliza Sample.portal)
     (app (exec Sample.env Sample.started
             [CallUnregisterAgent "a1"; Signal SIGTERM; EmitClose])).
Proof.
  destruct (layers_are_only_added Sample.env Sample.started
              [CallUnregisterAgent "a1"; Signal SIGTERM; EmitClose] eq_refl) as [_ H].
  apply H. vm_compute. now left.
Defined.

(** ** What [initializeServer] builds *)







(** ** The TEE plugin *)

Lemma capability_calls_app t u :
  capability_calls (t ++ u) = capability_calls t ++ capability_calls u.
Proof. apply filter_app. Qed.

#[export] Hint Rewrite capability_calls_app : trace.

Lemma announce_loop_spec {A} (f : A -> event) (g : A -> message) (l : list A) w :
  for_of l (fun x => effect (emit (f x)) ;; log DEBUG (g x)) w
  = (Ok tt,
     with_trace (fun _ =>
       trace w ++ flat_map (fun x => [f x; Logged DEBUG (g x) None]) l) w).
Proof.
  revert w. induction l as [|x l IH]; intros w.
  - cbn [for_of flat_map]. unfold ret. same_world. now rewrite app_nil_r.
  - cbn [for_of flat_map]. unfold bind at 1. unfold log, bind, effect.
    rewrite IH. same_world.
Qed.

Lemma capability_calls_providers id (g : string -> message) ps :
  capability_calls (flat_map (fun x => [RegisterProvider id x; Logged DEBUG (g x) None]) ps)
  = map (RegisterProvider id) ps.
Proof. induction ps as [|p ps IH]; [reflexivity|]. cbn. now rewrite <- IH. Qed.

Lemma capability_calls_actions id (g : string -> message) acs :
  capability_calls (flat_map (fun x => [RegisterAction id x; Logged DEBUG (g x) None]) acs)
  = map (RegisterAction id) acs.
Proof. induction acs as [|a acs IH]; [reflexivity|]. cbn. now rewrite <- IH. Qed.

Lemma register_tee_calls rt w :
  capability_calls (trace (run (register_tee rt) w))
  = capability_calls (trace w) ++ tee_calls rt.
Proof.
  unfold run, register_tee, tee_calls.
  destruct (find _ (Runtime.plugins rt)) as [p|]; [|cbn; now rewrite app_nil_r].
  unfold log at 1. rewrite run_effect_bind. unfold bind at 1.
  destruct (Plugin.providers p) as [ps|].
  - rewrite announce_loop_spec.
    destruct (Plugin.actions p) as [acs|].
    + rewrite announce_loop_spec. fields.
      rewrite !capability_calls_app, capability_calls_providers,
        capability_calls_actions.
      cbn. now rewrite app_nil_r, app_assoc.
    + cbn [throw snd]. fields.
      rewrite !capability_calls_app, capability_calls_providers.
      cbn. now rewrite !app_nil_r.
  - cbn [throw snd]. fields. rewrite capability_calls_app. cbn. now rewrite !app_nil_r.
Qed.

Lemma register_tee_incomplete rt w :
  tee_ready rt = false -> exists msg, result (register_tee rt) w = Throw (TypeError msg).
Proof.
  unfold tee_ready, result, register_tee.
  destruct (find _ (Runtime.plugins rt)) as [p|]; [|discriminate].
  unfold log at 1. rewrite run_effect_bind. unfold bind at 1.
  destruct (Plugin.providers p) as [ps|]; [|intros _; eexists; reflexivity].
  rewrite announce_loop_spec.
  destruct (Plugin.actions p) as [acs|]; [discriminate|]. intros _. eexists. reflexivity.
Qed.

Lemma mount_route_calls E rt r :
  keeps (unchanged (fun w => capability_calls (trace w))) (mount_route E rt r).
Proof. unfold mount_route, route_switch. frame. Qed.

(** X11: for a valid handle, [registerAgent] registers the providers and the
    actions of the first plugin named [phala-tee-plugin], the providers
    first, each list in its order, and registers nothing when no plugin has
    that name; other plugins contribute no provider and no action, and the
    routes make no difference.  When that plugin lacks its list of providers
    or of actions, the registration throws a [TypeError] before any route is
    mounted. *)
Theorem tee_capabilities_registered (E : Env) (rt : Runtime.t) (w : world) :
  valid_runtime rt = true ->
  capability_calls (trace (run (registerAgent E (Some rt)) w))
  = capability_calls (trace w) ++ tee_calls rt /\
  (tee_ready rt = false ->
   (exists msg, result (registerAgent E (Some rt)) w = Throw (TypeError msg)) /\
   app (run (registerAgent E (Some rt)) w) = app w).
Proof.
  intros Hv. destruct (valid_runtime_inv rt Hv) as (Hid & c & Hc).
  assert (Hpair : exists o w',
    registerAgent E (Some rt) w = (o, w') /\
    capability_calls (trace w') = capability_calls (trace w) ++ tee_calls rt /\
    (tee_ready rt = false -> (exists msg, o = Throw (TypeError msg)) /\ app w' = app w)).
  { unfold registerAgent, try_catch. rewrite Hid, Hc. cbn [negb].
    unfold log at 1 2. rewrite !run_effect_bind. unfold bind at 1.
    match goal with |- context [register_tee rt ?w0] => set (w3 := w0) end.
    assert (Hc3 : capability_calls (trace w3) = capability_calls (trace w)).
    { subst w3. fields. now autorewrite with trace. }
    pose proof (register_tee_calls rt w3) as Hcalls.
    pose proof (register_tee_app rt w3) as Happ.
    pose proof (register_tee_incomplete rt w3) as Hinc.
    unfold run, result, unchanged in Hcalls, Happ, Hinc.
    destruct (register_tee rt w3) as [[[]|e] wt]; cbn [fst snd] in Hcalls, Happ, Hinc.
    - match goal with
      | |- context [@bind ?A ?B ?m ?k wt] =>
          assert (Hrest : keeps (unchanged (fun w => capability_calls (trace w)))
                            (@bind A B m k))
            by (frame; apply mount_route_calls);
          specialize (Hrest wt); unfold run, unchanged in Hrest;
          destruct (@bind A B m k wt) as [[[]|e] w4]
      end; cbn [snd] in Hrest.
      + do 2 eexists. split; [reflexivity|]. split; [now rewrite Hrest, Hcalls, Hc3|].
        intros Ht. destruct (Hinc Ht) as [msg Hmsg]. discriminate.
      + unfold log_error, bind, effect, throw. do 2 eexists. split; [reflexivity|].
        split.
        * fields. autorewrite with trace. cbn. autorewrite with trace.
          now rewrite Hrest, Hcalls, Hc3.
        * intros Ht. destruct (Hinc Ht) as [msg Hmsg]. discriminate.
    - unfold log_error, bind, effect, throw. do 2 eexists. split; [reflexivity|].
      split.
      + fields. autorewrite with trace. cbn. autorewrite with trace.
        now rewrite Hcalls, Hc3.
      + intros Ht. destruct (Hinc Ht) as [msg [= ->]]. split; [now exists msg|].
        fields. rewrite Happ. subst w3. reflexivity. }
  destruct Hpair as (o & w' & Hreg & Hcalls & Hinc).
  unfold run, result. rewrite Hreg. cbn [fst snd]. split; [exact Hcalls|exact Hinc].
Qed.

Lemma tee_capabilities_registered_witness :
  capability_calls (trace (run (registerAgent Sample.env (Some Sample2.guarded)) new_AgentServer))
  = [ RegisterProvider "a3" "deriveKey"; RegisterProvider "a3" "remoteAttestation";
      RegisterAction "a3" "attest" ].
Proof.
  destruct (tee_capabilities_registered Sample.env Sample2.guarded new_AgentServer eq_refl)
    as [H _].
  exact H.
Defined.

(** ** Shutdown, beyond the claims *)

(** The handler run once for each element of a list: every run is a drain. *)
Lemma drains_repeat {A} (listeners : list A) :
  forall w l,
    alive w = true -> server w = Some l ->
    let w' := fold_left (fun w _ => on_signal w) listeners w in
    stop_calls (trace w')
    = stop_calls (trace w)
      ++ List.concat (repeat (JsMap.keys (agents w)) (List.length listeners)) /\
    close_calls (trace w') = close_calls (trace w) + List.length listeners /\
    List.length (timers w') = List.length (timers w) + List.length listeners /\
    alive w' = true.
Proof.
  induction listeners as [|x listeners IH]; intros w l Ha Hs.
  - cbn. rewrite app_nil_r. repeat split; auto.
  - cbn [fold_left List.length repeat List.concat]. cbv zeta.
    rewrite (on_signal_drains w l Ha Hs).
    destruct (IH (drained w l)
                {| port := port l; on_listening := on_listening l; closing := true;
                   on_close := on_close l ++ [ShutdownCloseCallback] |}
                Ha eq_refl) as (H1 & H2 & H3 & H4).
    cbv zeta in H1, H2, H3, H4. rewrite H1, H2, H3. split; [|split; [|split]].
    + unfold drained. trace_calc. now rewrite <- !app_assoc.
    + unfold drained. trace_calc. lia.
    + unfold drained. fields. rewrite length_app. cbn. lia.
    + exact H4.
Qed.

(** X12: a termination signal runs the drain once for every handler
    registered for it, and [start] registers one each time it succeeds: with
    [n] handlers for the signal, every registered agent is stopped [n] times,
    in registry order each time, [close] is called on the listener [n] times
    and [n] timers are armed.  A server started twice drains twice on a single
    signal. *)
Theorem signal_drains_once_per_handler (E : Env) (acts : list action) (s : signal) :
  let w := exec E new_AgentServer acts in
  alive w = true ->
  let w' := step E w (Signal s) in
  stop_calls (trace w')
  = stop_calls (trace w)
    ++ List.concat (repeat (JsMap.keys (agents w)) (listeners_of s w)) /\
  close_calls (trace w') = close_calls (trace w) + listeners_of s w /\
  List.length (timers w') = List.length (timers w) + listeners_of s w.
Proof.
  intros w Ha w'. subst w'. unfold step. rewrite Ha. unfold deliver, listeners_of.
  pose proof (exec_consistent E acts) as C. fold w in C.
  destruct (filter (signal_eqb s) (handlers w)) as [|h hs] eqn:Hf.
  - cbn [List.length repeat List.concat]. fields. trace_calc.
    repeat split; lia.
  - assert (Hh : handlers w <> []) by (intros Hn; rewrite Hn in Hf; discriminate).
    destruct (server w) as [l|] eqn:Hs; [|now destruct (handlers_have_server w C Hh)].
    destruct (drains_repeat (h :: hs) w l Ha Hs) as (H1 & H2 & H3 & _).
    cbv zeta in H1, H2, H3. repeat split; assumption.
Qed.

Lemma signal_drains_once_per_handler_witness :
  listeners_of SIGTERM Sample2.started_twice = 2 /\
  stop_calls (trace (step Sample.env Sample2.started_twice (Signal SIGTERM)))
  = ["a1"; "a3"; "a2"; "a1"; "a3"; "a2"].
Proof.
  split; [vm_compute; reflexivity|].
  pose proof (signal_drains_once_per_handler Sample.env
                [CallRegisterAgent (Some Sample.eliza);
                 CallRegisterAgent (Some Sample2.guarded);
                 CallRegisterAgent (Some Sample.faulty);
                 CallStart (Js.of_Z 3000); CallStart (Js.of_Z 3001)]
                SIGTERM eq_refl) as H.
  cbv zeta in H. destruct H as (H & _).
  etransitivity; [exact H|]. vm_compute. reflexivity.
Defined.

Lemma logged_error_stop_trace entries :
  logged ERROR (stop_trace entries)
  = map stop_failure (filter (fun kv => stop_throws (snd kv)) entries).
Proof.
  induction entries as [|[id agent] entries IH]; [reflexivity|].
  cbn [stop_trace flat_map filter snd]. unfold stop_throws at 1.
  change (flat_map _ entries) with (stop_trace entries).
  destruct (Runtime.stop agent); cbn; now rewrite <- IH.
Qed.

#[export] Hint Rewrite logged_error_stop_trace : trace.

(** X13: the shutdown handler isolates the failure of an agent.  On a
    running server with a listener it returns normally whatever the agents'
    [stop] operations do; every registered agent has its [stop] called once,
    in registry order, also after one of them threw; the error log gains one
    entry for each agent whose [stop] threw, and nothing else; and [close] is
    called on the listener, and the timer armed, only after the last
    agent. *)
Theorem stop_failures_are_isolated (w : world) (l : Listener) :
  alive w = true ->
  server w = Some l ->
  result gracefulShutdown w = Ok tt /\
  logged ERROR (trace (on_signal w))
  = logged ERROR (trace w)
    ++ map stop_failure (filter (fun kv => stop_throws (snd kv)) (agents w)) /\
  exists during,
    trace (on_signal w) = trace w ++ during ++ [ServerClose; SetTimeout 5000] /\
    stop_calls during = JsMap.keys (agents w) /\
    close_calls during = 0.
Proof.
  intros Ha Hs. split; [|split].
  - unfold result. now rewrite (gracefulShutdown_spec w l Hs).
  - rewrite (on_signal_drains w l Ha Hs). unfold drained. trace_calc. reflexivity.
  - rewrite (on_signal_drains w l Ha Hs). unfold drained. fields.
    exists ([Logged LOG
               [Txt "Received shutdown signal, initiating graceful shutdown..."] None;
             Logged DEBUG [Txt "Stopping all agents..."] None]
            ++ stop_trace (agents w)).
    split; [now rewrite <- !app_assoc|].
    split; trace_calc; reflexivity.
Qed.

Lemma stop_failures_are_isolated_witness :
  stop_calls (trace (on_signal Sample2.started_twice)) = ["a1"; "a3"; "a2"] /\
  logged ERROR (trace (on_signal Sample2.started_twice))
  = logged ERROR (trace Sample2.started_twice) ++ [[Txt "Error stopping agent a3:"]].
Proof.
  destruct (stop_failures_are_isolated Sample2.started_twice
              {| port := Js.of_Z 3001;
                 on_listening := [ListeningCallback (Js.of_Z 3001)];
                 closing := false; on_close := [] |} eq_refl eq_refl)
    as (_ & He & _).
  split; [vm_compute; reflexivity|].
  etransitivity; [exact He|]. vm_compute. reflexivity.
Defined.

(** X14: an agent that was unregistered is not stopped at shutdown, though
    its routes are still mounted: after [unregisterAgent] with a non-empty
    identifier, the shutdown handler calls [stop] on the agents that remain,
    the unregistered identifier is not among them, and the application is the
    one from before the unregistration. *)
Theorem unregistered_agent_is_not_stopped (w : world) (l : Listener) (id : UUID) :
  JsMap.wf (agents w) ->
  alive w = true ->
  server w = Some l ->
  id <> "" ->
  let w' := on_signal (run (unregisterAgent id) w) in
  stop_calls (trace w')
  = stop_calls (trace w) ++ JsMap.keys (JsMap.delete id (agents w)) /\
  ~ In id (JsMap.keys (JsMap.delete id (agents w))) /\
  app w' = app w.
Proof.
  intros Hwf Ha Hs Hid w'.
  assert (Hun : run (unregisterAgent id) w
                = emit (Logged DEBUG [Txt ("Agent " ++ id ++ " removed from agents map")] None)
                    (with_agents (JsMap.delete id) w)).
  { unfold run. rewrite unregisterAgent_spec.
    now rewrite (proj2 (truthy_str id) Hid). }
  subst w'. rewrite Hun.
  rewrite (on_signal_drains _ l) by (fields; assumption).
  unfold drained. fields. split; [|split; [|reflexivity]].
  - trace_calc. reflexivity.
  - apply JsMapFacts.get_none_iff. now apply JsMapFacts.get_delete_same.
Qed.

Lemma unregistered_agent_is_not_stopped_witness :
  stop_calls (trace (on_signal (run (unregisterAgent "a3") Sample2.started_twice)))
  = ["a1"; "a2"].
Proof.
  assert (Hwf : JsMap.wf (agents Sample2.started_twice)).
  { unfold JsMap.wf. vm_compute. repeat constructor; simpl; intuition discriminate. }
  pose proof (unregistered_agent_is_not_stopped Sample2.started_twice
                {| port := Js.of_Z 3001;
                   on_listening := [ListeningCallback (Js.of_Z 3001)];
                   closing := false; on_close := [] |} "a3"
                Hwf eq_refl eq_refl ltac:(discriminate)) as H.
  cbv zeta in H. destruct H as (H & _).
  etransitivity; [exact H|]. vm_compute. reflexivity.
Defined.

(** ** A server that receives no signal *)










Section Quiet.
Variable E : Env.









End Quiet.



(** ** The deadline of a shutdown *)

#[export] Instance timers_kept_frame : Frame timers_kept.
Proof.
  split.
  - intros w. split; [reflexivity|apply incl_refl].
  - intros a b c [H1 H2] [H3 H4]. split; [congruence|].
    eapply incl_tran; eassumption.
Qed.

(** Closes the goals [frame] leaves for [timers_kept]. *)
Ltac kept_leaf :=
  unfold timers_kept; fields;
  split; [reflexivity|first [apply incl_refl | apply incl_appl, incl_refl]].

Lemma lifecycle_timers_kept {A} (m : M A) :
  keeps (unchanged lifecycle_view) m -> keeps timers_kept m.
Proof.
  intros H w. specialize (H w). unfold unchanged, lifecycle_view in H.
  injection H as _ _ Ht Hc _ _ _ _ _. split; [exact Hc|]. rewrite Ht. apply incl_refl.
Qed.

Lemma gracefulShutdown_timers_kept : keeps timers_kept gracefulShutdown.
Proof. unfold gracefulShutdown. frame; kept_leaf. Qed.

Lemma stop_timers_kept : keeps timers_kept stop.
Proof. unfold stop. frame; kept_leaf. Qed.

Lemma start_timers_kept E port : keeps timers_kept (start E port).
Proof. unfold start. frame; kept_leaf. Qed.

Lemma invoke_timers_kept cb : keeps timers_kept (invoke cb).
Proof. destruct cb; unfold invoke; frame; kept_leaf. Qed.

Lemma fire_timers_kept cb w : timers_kept w (fire cb w).
Proof.
  unfold fire. destruct (alive w); [|apply frame_refl].
  pose proof (invoke_timers_kept cb w) as H. unfold run in H.
  destruct (invoke cb w) as [[[]|e] w']; cbn [snd] in H; exact H.
Qed.

Lemma fire_all_timers_kept cbs w : timers_kept w (fire_all cbs w).
Proof.
  revert w. induction cbs as [|cb cbs IH]; intros w; [apply frame_refl|].
  rewrite fire_all_cons. apply (frame_trans w (fire cb w)); [apply fire_timers_kept|apply IH].
Qed.

Lemma on_signal_timers_kept w : timers_kept w (on_signal w).
Proof.
  unfold on_signal. destruct (alive w); [|apply frame_refl].
  pose proof (gracefulShutdown_timers_kept w) as H. unfold run in H.
  destruct (gracefulShutdown w) as [[[]|e] w']; cbn [snd] in H; exact H.
Qed.

Lemma signals_timers_kept {A} (listeners : list A) w :
  timers_kept w (fold_left (fun w _ => on_signal w) listeners w).
Proof.
  revert w. induction listeners as [|x listeners IH]; intros w; [apply frame_refl|].
  cbn [fold_left].
  apply (frame_trans w (on_signal w)); [apply on_signal_timers_kept|apply IH].
Qed.

Lemma signals_consistent {A} (listeners : list A) w :
  consistent w -> consistent (fold_left (fun w _ => on_signal w) listeners w).
Proof.
  revert w. induction listeners as [|x listeners IH]; intros w C; [exact C|].
  cbn [fold_left]. apply IH, on_signal_consistent, C.
Qed.

Lemma armed_kept due w w' :
  timers_kept w w' -> alive w = true -> armed due w -> armed due w'.
Proof.
  intros [Hc Hi] Ha Hw _. destruct (Hw Ha) as [Hin Hlt].
  split; [apply Hi, Hin|now rewrite Hc].
Qed.

Section Deadline.
Variable E : Env.

(** Between two lapses of time the clock stands still and no timer is
    disarmed. *)
Lemma step_timers_kept w a :
  (forall ms, a <> Elapse ms) -> timers_kept w (step E w a).
Proof.
  intros Hne. unfold step. destruct (alive w); [|apply frame_refl].
  destruct a.
  - apply (lifecycle_timers_kept _ (registerAgent_lifecycle E runtime)).
  - apply (lifecycle_timers_kept _ (unregisterAgent_lifecycle agentId)).
  - apply (lifecycle_timers_kept _ (registerMiddleware_lifecycle id)).
  - apply start_timers_kept.
  - apply stop_timers_kept.
  - unfold database_ready.
    set (m := (log SUCCESS [Txt "Database initialized successfully"] ;;
               initializeServer E options)).
    assert (Hl : keeps timers_kept m).
    { apply lifecycle_timers_kept. subst m. frame. apply initializeServer_lifecycle. }
    specialize (Hl w). unfold run in Hl.
    destruct (m w) as [[[]|e] w']; cbn [snd] in Hl; exact Hl.
  - unfold deliver. destruct (filter (signal_eqb s) (handlers w)) as [|h hs].
    + kept_leaf.
    + apply signals_timers_kept.
  - unfold emit_listening. destruct (server w) as [l|]; [|apply frame_refl].
    eapply frame_trans; [|apply fire_all_timers_kept]. kept_leaf.
  - unfold emit_close. destruct (server w) as [l|]; [|apply frame_refl].
    destruct (closing l); [|apply frame_refl].
    eapply frame_trans; [|apply fire_all_timers_kept]. kept_leaf.
  - now destruct (Hne ms).
Qed.

(** An armed shutdown timer stays armed until it fires, and its firing ends
    the process. *)
Lemma step_armed due w a : consistent w -> armed due w -> armed due (step E w a).
Proof.
  intros C Hw. destruct (alive w) eqn:Ha; [|unfold step; now rewrite Ha].
  destruct a as [rt|id|id|port|  |o|s| | |ms];
    try (apply (armed_kept due w); [apply step_timers_kept; discriminate|exact Ha|exact Hw]).
  destruct (Hw Ha) as [Hin Hlt]. unfold step. rewrite Ha. unfold elapse.
  destruct (Nat.leb due (clock w + ms)) eqn:Hd.
  - intros Ha'. exfalso.
    set (w0 := with_clock (fun _ => clock w + ms)
                 (with_timers (fun _ => filter (fun t => negb (Nat.leb (fst t) (clock w + ms)))
                                          (timers w)) w)) in *.
    set (cbs := map snd (sort_timers (filter (fun t => Nat.leb (fst t) (clock w + ms))
                                        (timers w)))) in *.
    assert (Hne : cbs <> []).
    { assert (Hc : In ShutdownTimeoutCallback cbs).
      { apply in_map_iff. exists (due, ShutdownTimeoutCallback). split; [reflexivity|].
        apply sort_timers_in, filter_In. split; [exact Hin|exact Hd]. }
      intros Hn. now rewrite Hn in Hc. }
    destruct (fire_all_timeouts cbs w0) as [He _].
    + exact Ha.
    + subst w0. fields. now apply alive_no_exit.
    + exact Hne.
    + apply due_timers_force, (timers_force w C).
    + unfold alive in Ha'. now rewrite He in Ha'.
  - intros _. apply Nat.leb_gt in Hd.
    match goal with
    | |- context [fire_all ?cbs ?w0] =>
        destruct (fire_all_timers_kept cbs w0) as [Hc Hi]; rewrite Hc; split
    end.
    + apply Hi. fields. apply filter_In. split; [exact Hin|].
      apply negb_true_iff, Nat.leb_gt. exact Hd.
    + fields. exact Hd.
Qed.

Lemma exec_armed due w acts :
  consistent w -> armed due w -> armed due (exec E w acts).
Proof.
  revert w. induction acts as [|a acts IH]; intros w C Hw; [exact Hw|].
  cbn [exec fold_left]. apply IH; [now apply step_consistent|now apply step_armed].
Qed.

End Deadline.

(** X16: a shutdown is bounded by its timer.  Once a termination signal
    reached a handler at time [t], the process has ended by time [t + 5000],
    whatever is called and whatever the listener emits in between: further
    signals, [stop], [start], registrations.  Nothing in the file disarms the
    timer, and no callback outlives an exit. *)
Theorem shutdown_is_bounded (E : Env) (acts more : list action) (s : signal) :
  let w := exec E new_AgentServer acts in
  alive w = true ->
  In s (handlers w) ->
  let w' := exec E (step E w (Signal s)) more in
  clock w + 5000 <= clock w' ->
  alive w' = false.
Proof.
  intros w Ha Hs w' Hclock.
  pose proof (exec_consistent E acts) as C. fold w in C.
  assert (Hw : armed (clock w + 5000) (step E w (Signal s)) /\
               consistent (step E w (Signal s))).
  { split; [|now apply step_consistent].
    unfold step. rewrite Ha. unfold deliver.
    destruct (filter (signal_eqb s) (handlers w)) as [|h hs] eqn:Hf.
    - assert (Hin : In s (filter (signal_eqb s) (handlers w))).
      { apply filter_In. split; [exact Hs|now destruct s]. }
      now rewrite Hf in Hin.
    - assert (Hh : handlers w <> []) by (intros Hn; now rewrite Hn in Hs).
      destruct (server w) as [l|] eqn:Hl; [|now destruct (handlers_have_server w C Hh)].
      cbn [fold_left]. rewrite (on_signal_drains w l Ha Hl).
      apply (armed_kept _ (drained w l)); [apply signals_timers_kept|exact Ha|].
      intros _. unfold drained. fields. split; [|lia].
      apply in_or_app. right. now left. }
  destruct Hw as [Hw C'].
  pose proof (exec_armed E _ _ more C' Hw) as Hend. fold w' in Hend.
  destruct (alive w') eqn:Ha'; [|reflexivity].
  destruct (Hend Ha') as [_ Hlt]. lia.
Qed.

Lemma shutdown_is_bounded_witness :
  alive (exec Sample.env
           (step Sample.env
              (exec Sample.env new_AgentServer
                 [CallRegisterAgent (Some Sample.eliza); CallStart (Js.of_Z 3000)])
              (Signal SIGTERM))
           [CallStop; Elapse 5000]) = false.
Proof.
  apply (shutdown_is_bounded Sample.env
           [CallRegisterAgent (Some Sample.eliza); CallStart (Js.of_Z 3000)]
           [CallStop; Elapse 5000] SIGTERM).
  - reflexivity.
  - vm_compute. left. reflexivity.
  - apply Nat.leb_le. vm_compute. reflexivity.
Defined.

(** ** Registering under an identifier that is taken *)

Lemma set_set {V} k (v v' : V) (m : JsMap.t V) :
  JsMap.set k v' (JsMap.set k v m) = JsMap.set k v' m.
Proof.
  induction m as [|[k0 v0] m IH]; cbn.
  - now rewrite String.eqb_refl.
  - destruct (String.eqb_spec k0 k) as [->|Hne]; cbn.
    + now rewrite String.eqb_refl.
    + destruct (String.eqb_spec k0 k); [congruence|now rewrite IH].
Qed.

(** X17: registering a handle under an identifier that is already
    registered replaces the handle and nothing else in the registry (the
    identifiers and their order stay as they were), but unmounts nothing: the
    routes of the replaced handle stay in the application, still bound to the
    replaced handle, in front of the routes of the new one. *)
Theorem replaced_agent_keeps_its_routes (E : Env) (w : world) (old rt : Runtime.t) :
  valid_runtime old = true ->
  tee_ready old = true ->
  (forall r, In r (Runtime.routes old) -> known_type (Route.type r) = true ->
     express_rejects E (verb_of (Route.type r)) (Route.path r) = false) ->
  valid_runtime rt = true ->
  tee_ready rt = true ->
  (forall r, In r (Runtime.routes rt) -> known_type (Route.type r) = true ->
     express_rejects E (verb_of (Route.type r)) (Route.path r) = false) ->
  Runtime.agentId rt = Runtime.agentId old ->
  let w1 := run (registerAgent E (Some old)) w in
  let w2 := run (registerAgent E (Some rt)) w1 in
  agents w2 = JsMap.set (Runtime.agentId rt) rt (agents w) /\
  JsMap.keys (agents w2) = JsMap.keys (agents w1) /\
  JsMap.get (Runtime.agentId rt) (agents w2) = Some rt /\
  app w2
  = app w
    ++ map (binding_of old) (filter (fun r => known_type (Route.type r)) (Runtime.routes old))
    ++ map (binding_of rt) (filter (fun r => known_type (Route.type r)) (Runtime.routes rt)).
Proof.
  intros Hvo Hto Hao Hv Ht Ha Hid w1 w2.
  assert (H1 : agents w1 = JsMap.set (Runtime.agentId old) old (agents w)).
  { subst w1. now rewrite registerAgent_agents, Hvo. }
  assert (H2 : agents w2 = JsMap.set (Runtime.agentId rt) rt (agents w1)).
  { subst w2. now rewrite registerAgent_agents, Hv. }
  split; [|split; [|split]].
  - rewrite H2, H1, Hid. apply set_set.
  - rewrite H2. apply JsMapFacts.keys_set_in. rewrite H1, Hid.
    apply JsMapFacts.in_keys_set.
  - rewrite H2. apply JsMapFacts.get_set_same.
  - destruct (registerAgent_accepted E w old Hvo Hto Hao) as (b1 & a1 & w1' & Hr1 & Hp1 & _).
    assert (Hw1 : w1 = w1') by (subst w1; unfold run; now rewrite Hr1).
    destruct (registerAgent_accepted E w1 rt Hv Ht Ha) as (b2 & a2 & w2' & Hr2 & Hp2 & _).
    assert (Hw2 : w2 = w2') by (subst w2; unfold run; now rewrite Hr2).
    rewrite Hw2, Hp2, Hw1, Hp1. symmetry. apply app_assoc.
Qed.

Lemma replaced_agent_keeps_its_routes_witness :
  JsMap.keys (agents (run (registerAgent Sample.env (Some Sample.eliza2))
                        (run (registerAgent Sample.env (Some Sample.eliza)) new_AgentServer)))
  = ["a1"] /\
  app (run (registerAgent Sample.env (Some Sample.eliza2))
         (run (registerAgent Sample.env (Some Sample.eliza)) new_AgentServer))
  = [binding_of Sample.eliza Sample.portal; binding_of Sample.eliza Sample.submit].
Proof.
  assert (Hacc : forall r, In r (Runtime.routes Sample.eliza) ->
            known_type (Route.type r) = true ->
            express_rejects Sample.env (verb_of (Route.type r)) (Route.path r) = false).
  { intros r [<-|[<-|[<-|[]]]] _; reflexivity. }
  assert (Hacc2 : forall r, In r (Runtime.routes Sample.eliza2) ->
            known_type (Route.type r) = true ->
            express_rejects Sample.env (verb_of (Route.type r)) (Route.path r) = false).
  { intros r []. }
  pose proof (replaced_agent_keeps_its_routes Sample.env new_AgentServer
                Sample.eliza Sample.eliza2 eq_refl eq_refl Hacc eq_refl eq_refl Hacc2
                eq_refl) as H.
  cbv zeta in H. destruct H as (_ & Hk & _ & Hp).
  split.
  - etransitivity; [exact Hk|]. vm_compute. reflexivity.
  - etransitivity; [exact Hp|]. reflexivity.
Defined.
